(** * BYCEPS event announcements: webhooks, IRC announcers, webhook admin

    A shallow embedding of

    - [byceps/announce/helpers.py]        (webhook lookup and dispatch),
    - [byceps/announce/irc/user.py]       (account-created announcer),
    - [byceps/announce/irc/user_badge.py] (badge-awarded announcer),
    - [byceps/blueprints/admin/webhook/views.py] (create / update / test),

    together with the properties the specification states about them.

    Python strings are modelled as [string], read as the UTF-8 encoding of
    the text: concatenation is [String.append] and the code-point order of
    Python's [<] on [str] is the byte-wise order [String.ltb]. *)

From Stdlib Require Import String Ascii List Sorted Permutation NArith.
From stdpp Require Import base option list gmap strings.


(** ** Python values, truthiness, exceptions *)

Module Py.

(** The fragment of [Any] that the values of [extra_fields] range over
    here: [None] and [str]. *)
Inductive value : Type :=
| VNone
| VStr (s : string).

(** [bool(s)] for a [str]. *)
Definition str_truthy (s : string) : bool :=
  match s with
  | EmptyString => false
  | String _ _ => true
  end.

(** [bool(v)]. *)
Definition truthy (v : value) : bool :=
  match v with
  | VNone => false
  | VStr s => str_truthy s
  end.

(** What an f-string renders for an [Optional[str]] field. *)
Definition format_opt (o : option string) : string :=
  match o with
  | None => "None"
  | Some s => s
  end.

Inductive exn : Type :=
| KeyError (key : string)
| TypeError
| AttributeError (attr : string)
| ConnectionError (msg : string)
| HTTPException (code : nat).

(** The double quote character, as a one-character string. *)
Definition dq : string := String (ascii_of_nat 34) EmptyString.

(** The apostrophe, as a one-character string. *)
Definition sq : string := String (ascii_of_nat 39) EmptyString.

(** [str(e)]. *)
Definition exn_str (e : exn) : string :=
  match e with
  | KeyError key => sq +:+ key +:+ sq
  | TypeError => "'<' not supported between instances"
  | AttributeError attr =>
      "'NoneType' object has no attribute " +:+ sq +:+ attr +:+ sq
  | ConnectionError msg => msg
  | HTTPException code => "HTTP error"
  end.

(** Result of a computation that may raise. *)
Inductive Res (A : Type) : Type :=
| Ok (a : A)
| Raise (e : exn).
Arguments Ok {A} a.
Arguments Raise {A} e.

Definition rbind {A B} (r : Res A) (k : A -> Res B) : Res B :=
  match r with
  | Ok a => k a
  | Raise e => Raise e
  end.

(** [d[key]] *)
Definition dict_getitem (d : gmap string value) (key : string) : Res value :=
  match d !! key with
  | Some v => Ok v
  | None => Raise (KeyError key)
  end.

(** [d.get(key)] *)
Definition dict_get (d : gmap string value) (key : string) : value :=
  match d !! key with
  | Some v => v
  | None => VNone
  end.

(** [a < b]: defined between two [str], a [TypeError] otherwise
    ([None] supports no ordering, not even with itself). *)
Definition lt (a b : value) : Res bool :=
  match a, b with
  | VStr x, VStr y => Ok (String.ltb x y)
  | _, _ => Raise TypeError
  end.

(** *** [list.sort(key=...)]

    CPython first calls [key] on every element, in order; an exception
    there aborts the sort.  The elements are then ordered by [<] on the
    keys, stably; with fewer than two elements no comparison is made.
    The stable order is unique, so the sort is written as a stable
    insertion sort: an element goes before the already sorted elements
    that followed it unless one of those is strictly smaller. *)

Fixpoint compute_keys {A} (key : A -> Res value) (l : list A)
  : Res (list (value * A)) :=
  match l with
  | [] => Ok []
  | x :: l' =>
      rbind (key x) (fun k =>
      rbind (compute_keys key l') (fun ks =>
      Ok ((k, x) :: ks)))
  end.

Fixpoint insert_keyed {A} (x : value * A) (l : list (value * A))
  : Res (list (value * A)) :=
  match l with
  | [] => Ok [x]
  | y :: l' =>
      rbind (lt (fst y) (fst x)) (fun smaller =>
      if smaller
      then rbind (insert_keyed x l') (fun r => Ok (y :: r))
      else Ok (x :: y :: l'))
  end.

Fixpoint sort_keyed {A} (l : list (value * A)) : Res (list (value * A)) :=
  match l with
  | [] => Ok []
  | x :: l' => rbind (sort_keyed l') (insert_keyed x)
  end.

Definition list_sort {A} (key : A -> Res value) (l : list A) : Res (list A) :=
  rbind (compute_keys key l) (fun ks =>
  rbind (sort_keyed ks) (fun s =>
  Ok (map snd s))).

End Py.

Import Py.

(** ** Data model *)

Definition WebhookID := N.
Definition UserID := N.
Definition BadgeID := N.

(** [byceps.services.webhooks.transfer.models.OutgoingWebhook].
    [event_selectors] is a dict whose values are all [None]; only its key
    set matters. *)
Record OutgoingWebhook : Type := mkOutgoingWebhook {
  id : WebhookID;
  event_selectors : gset string;
  scope : string;
  scope_id : option string;
  format : string;
  text_prefix : option string;
  extra_fields : gmap string value;
  url : string;
  description : option string;
  enabled : bool;
}.

Record User : Type := mkUser {
  user_id_of : UserID;
  screen_name : option string;
}.

Record Badge : Type := mkBadge {
  badge_id_of : BadgeID;
  label : string;
}.

(** The events the announcers below consume. *)
Record UserAccountCreated : Type := mkUserAccountCreated {
  uac_initiator_id : option UserID;
  uac_user_id : UserID;
}.

Record UserBadgeAwarded : Type := mkUserBadgeAwarded {
  uba_initiator_id : option UserID;
  uba_user_id : UserID;
  uba_badge_id : BadgeID;
}.

(** [_BaseEvent]: one of the two event classes above, or another event
    class, given by its class name. *)
Inductive Event : Type :=
| EvUserAccountCreated (e : UserAccountCreated)
| EvUserBadgeAwarded (e : UserBadgeAwarded)
| EvOther (class_name : string).

(** JSON body of a request: a dict from strings to values. *)
Abbreviation Payload := (gmap string value).

(** ** Effects

    A computation reads the environment (network, message catalogue,
    permissions), reads and writes the database, and leaves a trace of
    what it did. *)

Inductive HttpOutcome : Type :=
| HttpResponse (status : nat)
| HttpFailure (msg : string).

Record Env : Type := mkEnv {
  (** what [requests.post(url, json=data)] meets on the network *)
  http : string -> option Payload -> HttpOutcome;
  (** [flask_babel.gettext] *)
  gettext : string -> string;
  (** whether the current user holds the named permission *)
  has_permission : string -> bool;
  (** the id the database gives to the next webhook *)
  next_webhook_id : WebhookID;
}.

Record Store : Type := mkStore {
  webhooks : list OutgoingWebhook;
  users : gmap UserID User;
  badges : gmap BadgeID Badge;
}.

Inductive Effect : Type :=
| LogWarning (msg : string)
(** entry into [call_webhook] *)
| Invoke (webhook : OutgoingWebhook) (text : string)
| HttpPost (url : string) (json : option Payload)
(** call of [byceps.util.irc.send_message] *)
| SendMessage (channels : list string) (text : string)
| FlashSuccess (text : string)
| FlashError (text : string).

Record Outcome (A : Type) : Type := mkOutcome {
  trace : list Effect;
  result : Res A;
  final : Store;
}.
Arguments mkOutcome {A} trace result final.
Arguments trace {A} o.
Arguments result {A} o.
Arguments final {A} o.

Definition M (A : Type) : Type := Env -> Store -> Outcome A.

Definition ret {A} (a : A) : M A :=
  fun _ st => mkOutcome [] (Ok a) st.

Definition raise {A} (e : exn) : M A :=
  fun _ st => mkOutcome [] (Raise e) st.

Definition bind {A B} (m : M A) (k : A -> M B) : M B :=
  fun env st =>
    let o := m env st in
    match result o with
    | Ok a =>
        let o' := k a env (final o) in
        mkOutcome (trace o ++ trace o') (result o') (final o')
    | Raise e => mkOutcome (trace o) (Raise e) (final o)
    end.

Notation "x <- c ;; k" := (bind c (fun x => k))
  (at level 100, c at next level, right associativity).
Notation "c ;;; k" := (bind c (fun _ => k))
  (at level 100, right associativity).

Definition lift {A} (r : Res A) : M A :=
  fun _ st => mkOutcome [] r st.

Definition emit (e : Effect) : M unit :=
  fun _ st => mkOutcome [e] (Ok tt) st.

Definition ask : M Env :=
  fun env st => mkOutcome [] (Ok env) st.

Definition get_store : M Store :=
  fun _ st => mkOutcome [] (Ok st) st.

Definition put_webhooks (ws : list OutgoingWebhook) : M unit :=
  fun _ st => mkOutcome [] (Ok tt) (mkStore ws (users st) (badges st)).

(** [try: body  except Exception as e: handler(e)] *)
Definition try_except {A} (body : M A) (handler : exn -> M A) : M A :=
  fun env st =>
    let o := body env st in
    match result o with
    | Ok a => o
    | Raise e =>
        let o' := handler e env (final o) in
        mkOutcome (trace o ++ trace o') (result o') (final o')
    end.

(** [current_app.logger.warning(msg)] *)
Definition logger_warning (msg : string) : M unit := emit (LogWarning msg).

(** [requests.post(url, json=data)]: the request goes out; a transport
    failure raises, any response (whatever its status code) is returned. *)
Definition requests_post (url : string) (json : option Payload) : M nat :=
  env <- ask ;;
  emit (HttpPost url json) ;;;
  match http env url json with
  | HttpResponse status => ret status
  | HttpFailure msg => raise (ConnectionError msg)
  end.

(** ** [byceps.services.webhooks.service] and the other services *)

(** Modelled from the spec: the lookup [get_enabled_outgoing_webhooks] of
    the webhook registry, which is not among the sources.  Spec 3.2: the
    registry "exposes lookup by (event type name, format) filtered to
    enabled webhooks"; spec 3.1: a webhook subscribes to the event types in its
    selector set. *)
Definition enabled_outgoing_webhooks (event_name webhook_format : string)
    (registry : list OutgoingWebhook) : list OutgoingWebhook :=
  filter (fun w => enabled w = true
                   ∧ event_name ∈ event_selectors w
                   ∧ format w = webhook_format)
         registry.

(** The lookup above, on the stored registry. *)
Definition get_enabled_outgoing_webhooks (event_name webhook_format : string)
  : M (list OutgoingWebhook) :=
  st <- get_store ;;
  ret (enabled_outgoing_webhooks event_name webhook_format (webhooks st)).

(** Modelled from the spec: [find_webhook] of the registry ("a plain keyed
    store"): the webhook with that id, or [None]. *)
Definition find_webhook (webhook_id : WebhookID) : M (option OutgoingWebhook) :=
  st <- get_store ;;
  ret (List.find (fun w => N.eqb (id w) webhook_id) (webhooks st)).

(** Modelled from the spec: [create_outgoing_webhook(event_selectors, format,
    url, enabled, *, text_prefix=None, extra_fields=None, description=None)]
    of the registry: it stores a new record made of its arguments (spec 3.1:
    text prefix, extra fields and description are optional); an argument
    that is not passed is absent.  A webhook created without a scope
    applies everywhere (scope ["any"], no scope id). *)
Definition create_outgoing_webhook
    (a_event_selectors : gset string) (a_format a_url : string)
    (a_enabled : bool) (a_text_prefix : option string)
    (a_extra_fields : option (gmap string value))
    (a_description : option string) : M OutgoingWebhook :=
  env <- ask ;;
  st <- get_store ;;
  let webhook :=
    {| id := next_webhook_id env;
       event_selectors := a_event_selectors;
       scope := "any";
       scope_id := None;
       format := a_format;
       text_prefix := a_text_prefix;
       extra_fields := default ∅ a_extra_fields;
       url := a_url;
       description := a_description;
       enabled := a_enabled |} in
  put_webhooks (webhooks st ++ [webhook]) ;;;
  ret webhook.

(** The record [update_outgoing_webhook] writes in place of [w]. *)
Definition updated_webhook (w : OutgoingWebhook)
    (a_event_selectors : gset string) (a_format a_url : string)
    (a_enabled : bool) (a_text_prefix : option string)
    (a_description : option string) : OutgoingWebhook :=
  {| id := id w;
     event_selectors := a_event_selectors;
     scope := scope w;
     scope_id := scope_id w;
     format := a_format;
     text_prefix := a_text_prefix;
     extra_fields := extra_fields w;
     url := a_url;
     description := a_description;
     enabled := a_enabled |}.

(** Modelled from the spec: [update_outgoing_webhook(webhook_id,
    event_selectors, format, url, enabled, *, text_prefix, description)] of
    the registry: the record with that id takes the given values, every
    other record stays as it is; an unknown id raises. *)
Definition update_outgoing_webhook (webhook_id : WebhookID)
    (a_event_selectors : gset string) (a_format a_url : string)
    (a_enabled : bool) (a_text_prefix : option string)
    (a_description : option string) : M OutgoingWebhook :=
  found <- find_webhook webhook_id ;;
  match found with
  | None => raise (KeyError "webhook_id")
  | Some w =>
      let w' := updated_webhook w a_event_selectors a_format a_url
                  a_enabled a_text_prefix a_description in
      st <- get_store ;;
      put_webhooks
        (map (fun x => if N.eqb (id x) webhook_id then w' else x)
             (webhooks st)) ;;;
      ret w'
  end.

(** Modelled from the spec: [user_service.find_user], which is not among
    the sources ("resolving display names", spec 3.2): the user with that
    id, or [None]. *)
Definition find_user (user_id : UserID) : M (option User) :=
  st <- get_store ;;
  ret (users st !! user_id).

(** Modelled from the spec: [user_badge_service.find_badge], which is not
    among the sources: the badge with that id, or [None]. *)
Definition find_badge (badge_id : BadgeID) : M (option Badge) :=
  st <- get_store ;;
  ret (badges st !! badge_id).

(** Modelled from the spec: [byceps.util.irc.send_message(channels, text)],
    which is not among the sources: the hand-over of one text for a channel
    set to the IRC relay (spec 3.1, "Channel set"), recorded as one
    effect. *)
Definition send_message (channels : list string) (text : string) : M unit :=
  emit (SendMessage channels text).

(** [x.attr] where [x] may be [None]. *)
Definition getattr {A B} (x : option A) (attr : string) (proj : A -> B) : M B :=
  match x with
  | Some a => ret (proj a)
  | None => raise (AttributeError attr)
  end.

(** ** [byceps/announce/helpers.py] *)

Definition get_screen_name_or_fallback (screen_name : option string) : string :=
  match screen_name with
  | Some s => if str_truthy s then s else "Jemand"
  | None => "Jemand"
  end.

Definition match_scope (webhook : OutgoingWebhook) (a_scope a_scope_id : string)
  : bool :=
  String.eqb (scope webhook) a_scope
  && bool_decide (scope_id webhook = Some a_scope_id).

Definition _assemble_request_data (webhook : OutgoingWebhook) (text : string)
  : M (option Payload) :=
  if String.eqb (format webhook) "discord" then
    ret (Some {[ "content" := VStr text ]})
  else if String.eqb (format webhook) "weitersager" then
    let channel := dict_get (extra_fields webhook) "channel" in
    (if negb (truthy channel)
     then logger_warning "No channel specified with IRC webhook."
     else ret tt) ;;;
    ret (Some (<[ "channel" := channel ]> {[ "text" := VStr text ]}))
  else
    (* neither branch taken: the function falls off its end *)
    ret None.

(** The text [call_webhook] goes on with: [text_prefix + text] when
    [text_prefix] is truthy. *)
Definition prefixed (text_prefix : option string) (text : string) : string :=
  match text_prefix with
  | Some p => if str_truthy p then p +:+ text else text
  | None => text
  end.

Definition call_webhook (webhook : OutgoingWebhook) (text : string) : M unit :=
  emit (Invoke webhook text) ;;;
  let text := prefixed (text_prefix webhook) text in
  data <- _assemble_request_data webhook text ;;
  requests_post (url webhook) data ;;; (* Ignore response code for now. *)
  ret tt.

Section Helpers.

(** [byceps.announce.events.get_name_for_event]: the table
    [EVENT_TYPES_TO_NAMES] is not among the sources. *)
Variable get_name_for_event : Event -> string.

Definition get_webhooks_for_discord (event : Event)
  : M (list OutgoingWebhook) :=
  let event_name := get_name_for_event event in
  let webhook_format := "discord" in
  get_enabled_outgoing_webhooks event_name webhook_format.

Definition get_webhooks_for_irc (event : Event) : M (list OutgoingWebhook) :=
  let event_name := get_name_for_event event in
  let webhook_format := "weitersager" in
  webhooks <- get_enabled_outgoing_webhooks event_name webhook_format ;;
  match webhooks with
  | [] =>
      logger_warning
        "No enabled IRC webhooks found. Not sending message to IRC." ;;;
      ret []
  | _ :: _ =>
      (* Stable order is easier to test. *)
      lift (list_sort
              (fun wh => dict_getitem (extra_fields wh) "channel")
              webhooks)
  end.

(** Modelled from the spec: the delivery loop of an announcer, which is
    not among the sources.  Spec 3.3, step 6: "For each target, the
    dispatcher sends one HTTP request". *)
Fixpoint call_webhooks (targets : list OutgoingWebhook) (text : string)
  : M unit :=
  match targets with
  | [] => ret tt
  | webhook :: rest => call_webhook webhook text ;;; call_webhooks rest text
  end.

(** Modelled from the spec: an announcer for the Discord format without
    scope filter (spec 3.2: it "looks up applicable webhooks by event-type
    name and format tag"). *)
Definition announce_discord (event : Event) (text : string) : M unit :=
  targets <- get_webhooks_for_discord event ;;
  call_webhooks targets text.

(** Modelled from the spec: an announcer for the Discord format that
    filters by scope (spec 3.2: "and optionally filters by scope"). *)
Definition announce_discord_scoped (event : Event)
    (a_scope a_scope_id : string) (text : string) : M unit :=
  targets <- get_webhooks_for_discord event ;;
  call_webhooks
    (List.filter (fun wh => match_scope wh a_scope a_scope_id) targets)
    text.

(** Modelled from the spec: an announcer for the IRC relay format. *)
Definition announce_irc (event : Event) (text : string) : M unit :=
  targets <- get_webhooks_for_irc event ;;
  call_webhooks targets text.

End Helpers.

(** ** [byceps/announce/irc/user.py], [byceps/announce/irc/user_badge.py] *)

Section IrcAnnouncers.

(** [._config.CHANNEL_ORGA_LOG], which is not among the sources. *)
Variable CHANNEL_ORGA_LOG : string.

Definition announce_user_account_created (event : UserAccountCreated)
  : M unit :=
  let channels := [CHANNEL_ORGA_LOG] in
  user <- find_user (uac_user_id event) ;;
  initiator_label <-
    match uac_initiator_id event with
    | Some initiator_id =>
        initiator <- find_user initiator_id ;;
        name <- getattr initiator "screen_name" screen_name ;;
        ret (format_opt name)
    | None => ret "Jemand"
    end ;;
  user_screen_name <- getattr user "screen_name" screen_name ;;
  let text :=
    initiator_label +:+ " "
    +:+ "hat das Benutzerkonto " +:+ dq
    +:+ format_opt user_screen_name +:+ dq +:+ " angelegt." in
  send_message channels text.

Definition announce_user_badge_awarded (event : UserBadgeAwarded) : M unit :=
  let channels := [CHANNEL_ORGA_LOG] in
  user <- find_user (uba_user_id event) ;;
  badge <- find_badge (uba_badge_id event) ;;
  initiator_name <-
    match uba_initiator_id event with
    | Some initiator_id =>   (* a UUID is always truthy *)
        initiator <- find_user initiator_id ;;
        name <- getattr initiator "screen_name" screen_name ;;
        ret (format_opt name)
    | None => ret "Jemand"
    end ;;
  badge_label <- getattr badge "label" label ;;
  user_screen_name <- getattr user "screen_name" screen_name ;;
  let text :=
    initiator_name +:+ " hat das Abzeichen " +:+ dq
    +:+ badge_label +:+ dq +:+ " "
    +:+ "an " +:+ format_opt user_screen_name +:+ " verliehen." in
  send_message channels text.

End IrcAnnouncers.

(** ** [byceps/blueprints/admin/webhook/views.py] *)

(** The data of a submitted create form, as the view reads it. *)
Record CreateForm : Type := mkCreateForm {
  cf_format : string;
  cf_url : string;
  cf_description : string;
  (** [form.get_field_for_event_name(event_name).data] *)
  cf_event : string -> bool;
}.

(** The data of a submitted update form, as the view reads it. *)
Record UpdateForm : Type := mkUpdateForm {
  uf_format : string;
  uf_url : string;
  uf_text_prefix : string;
  uf_description : string;
  uf_enabled : bool;
  uf_event : string -> bool;
}.

Inductive Response : Type :=
| RedirectTo (endpoint : string)
| CreateFormPage (form : option CreateForm)
| UpdateFormPage (webhook : OutgoingWebhook) (form : option UpdateForm)
| NoContent.

Definition flash_success (text : string) : M unit := emit (FlashSuccess text).
Definition flash_error (text : string) : M unit := emit (FlashError text).

(** [abort(code)] *)
Definition abort {A} (code : nat) : M A := raise (HTTPException code).

(** [@permission_required(permission)]: the view runs for a user who holds
    the permission, and the request is refused otherwise. *)
Definition permission_required {A} (permission : string) (view : M A) : M A :=
  env <- ask ;;
  if has_permission env permission then view else abort 403.

Definition _get_webhook_or_404 (webhook_id : WebhookID) : M OutgoingWebhook :=
  webhook <- find_webhook webhook_id ;;
  match webhook with
  | None => abort 404
  | Some w => ret w
  end.

Section WebhookAdmin.

(** [str.strip] and [str.lstrip]. *)
Variables strip lstrip : string -> string.

(** [frozenset(EVENT_TYPES_TO_NAMES.values())]; the table is not among
    the sources. *)
Variable WEBHOOK_EVENT_NAMES : gset string.

(** [form.validate()] of the two form classes of [.forms], which is not
    among the sources. *)
Variable validate_create : CreateForm -> bool.
Variable validate_update : UpdateForm -> bool.

Definition create_form (erroneous_form : option CreateForm) : M Response :=
  permission_required "webhook.administrate"
    (ret (CreateFormPage erroneous_form)).

Definition create (form : CreateForm) : M Response :=
  permission_required "webhook.administrate" (
    let event_names := WEBHOOK_EVENT_NAMES in
    if negb (validate_create form) then create_form (Some form)
    else
      let a_event_selectors :=
        filter (fun event_name => cf_event form event_name = true)
               event_names in
      let a_format := strip (cf_format form) in
      let a_url := strip (cf_url form) in
      let a_description := strip (cf_description form) in
      let a_enabled := false in
      webhook <- create_outgoing_webhook a_event_selectors a_format a_url
                   a_enabled None None (Some a_description) ;;
      env <- ask ;;
      flash_success (gettext env "Webhook has been created.") ;;;
      ret (RedirectTo ".index")).

Definition update_form (webhook_id : WebhookID)
    (erroneous_form : option UpdateForm) : M Response :=
  permission_required "webhook.administrate" (
    webhook <- _get_webhook_or_404 webhook_id ;;
    ret (UpdateFormPage webhook erroneous_form)).

Definition update (webhook_id : WebhookID) (form : UpdateForm) : M Response :=
  permission_required "webhook.administrate" (
    webhook <- _get_webhook_or_404 webhook_id ;;
    let event_names := WEBHOOK_EVENT_NAMES in
    if negb (validate_update form) then update_form (id webhook) (Some form)
    else
      let a_event_selectors :=
        filter (fun event_name => uf_event form event_name = true)
               event_names in
      let a_format := strip (uf_format form) in
      let a_url := strip (uf_url form) in
      (* Allow trailing whitespace. *)
      let a_text_prefix := lstrip (uf_text_prefix form) in
      let a_description := strip (uf_description form) in
      let a_enabled := uf_enabled form in
      webhook <- update_outgoing_webhook (id webhook) a_event_selectors
                   a_format a_url a_enabled (Some a_text_prefix)
                   (Some a_description) ;;
      env <- ask ;;
      flash_success (gettext env "Webhook has been updated.") ;;;
      ret (RedirectTo ".index")).

(** Call the webhook (synchronously). *)
Definition test (webhook_id : WebhookID) : M Response :=
  permission_required "webhook.administrate" (
    webhook <- _get_webhook_or_404 webhook_id ;;
    let text := "Test, test … is this thing on?!" in
    try_except
      (call_webhook webhook text ;;;
       env <- ask ;;
       flash_success (gettext env "Webhook call has been successful."))
      (fun e =>
         env <- ask ;;
         flash_error
           (gettext env "Webhook call failed:"
            +:+ "<br><pre style=" +:+ dq +:+ "white-space: pre-wrap;"
            +:+ dq +:+ ">" +:+ exn_str e +:+ "</pre>")) ;;;
    ret NoContent).

End WebhookAdmin.

(** ** Observations on traces and payloads *)

#[global] Instance value_eq_dec : EqDecision value.
Proof. solve_decision. Defined.

(** The HTTP requests of a trace, in order. *)
Fixpoint posts (tr : list Effect) : list (string * option Payload) :=
  match tr with
  | [] => []
  | HttpPost u json :: tr' => (u, json) :: posts tr'
  | _ :: tr' => posts tr'
  end.

(** The webhooks [call_webhook] was entered for, in order. *)
Fixpoint invoked (tr : list Effect) : list OutgoingWebhook :=
  match tr with
  | [] => []
  | Invoke w _ :: tr' => w :: invoked tr'
  | _ :: tr' => invoked tr'
  end.

(** The deliveries an announcer asked for: calls of [call_webhook] and
    calls of [send_message]. *)
Fixpoint deliveries (tr : list Effect) : list Effect :=
  match tr with
  | [] => []
  | Invoke w t :: tr' => Invoke w t :: deliveries tr'
  | SendMessage c t :: tr' => SendMessage c t :: deliveries tr'
  | _ :: tr' => deliveries tr'
  end.

(** The message text a payload carries: its ["content"] entry (Discord) or
    else its ["text"] entry (IRC relay). *)
Definition payload_text (p : Payload) : option value :=
  match p !! "content" with
  | Some v => Some v
  | None => p !! "text"
  end.

(** [s] occurs in [text]. *)
Definition contains (s text : string) : Prop :=
  exists before after, text = before +:+ s +:+ after.

(** Both keys are strings, in order. *)
Definition keyed_le {A} (x y : value * A) : Prop :=
  match fst x, fst y with
  | VStr a, VStr b => String.leb a b = true
  | _, _ => False
  end.

(** The pair [x] holds an element together with the key [key] gives it. *)
Definition keyed_by {A} (key : A -> Res value) (x : value * A) : Prop :=
  key (snd x) = Ok (fst x).

(** The keys [key] gives to [a] and [b] are strings, in order. *)
Definition key_le {A} (key : A -> Res value) (a b : A) : Prop :=
  match key a, key b with
  | Ok (VStr x), Ok (VStr y) => String.leb x y = true
  | _, _ => False
  end.

(** The channel of [a] is a string no greater than the channel of [b]. *)
Definition channel_le (a b : OutgoingWebhook) : Prop :=
  match extra_fields a !! "channel", extra_fields b !! "channel" with
  | Some (VStr x), Some (VStr y) => String.leb x y = true
  | _, _ => False
  end.

(** The webhooks of the store that are enabled and subscribed to
    [event_name], whatever their format. *)
Definition subscribed (event_name : string) (st : Store)
  : list OutgoingWebhook :=
  List.filter
    (fun w => enabled w && bool_decide (event_name ∈ event_selectors w))
    (webhooks st).


(** The dispatcher is entered exactly once for each of [targets]. *)
Definition one_call_per_webhook (targets : list OutgoingWebhook)
    (tr : list Effect) : Prop :=
  invoked tr ≡ₚ targets.

(** The text of the admin test call. *)
Definition test_text : string := "Test, test … is this thing on?!".

(** What the admin test call flashes after the call ended with [r]. *)
Definition test_flash (env : Env) (r : Res unit) : Effect :=
  match r with
  | Ok _ => FlashSuccess (gettext env "Webhook call has been successful.")
  | Raise e =>
      FlashError
        (gettext env "Webhook call failed:"
         +:+ "<br><pre style=" +:+ dq +:+ "white-space: pre-wrap;"
         +:+ dq +:+ ">" +:+ exn_str e +:+ "</pre>")
  end.

(** ** Sample data *)

Module Sample.

(** Event names as the registry keys them. *)
Definition event_name (event : Event) : string :=
  match event with
  | EvUserAccountCreated _ => "user-account-created"
  | EvUserBadgeAwarded _ => "user-badge-awarded"
  | EvOther class_name => class_name
  end.

Definition webhook (a_id : WebhookID) (a_format : string)
    (a_prefix : option string) (a_extra : gmap string value)
    (a_enabled : bool) : OutgoingWebhook :=
  {| id := a_id;
     event_selectors := {[ "user-badge-awarded" ]};
     scope := "any";
     scope_id := None;
     format := a_format;
     text_prefix := a_prefix;
     extra_fields := a_extra;
     url := "https://hooks.example/1";
     description := None;
     enabled := a_enabled |}.

Definition discord : OutgoingWebhook :=
  webhook 1%N "discord" (Some "[X] ") ∅ true.

Definition discord_disabled : OutgoingWebhook :=
  webhook 2%N "discord" None ∅ false.

Definition irc_orga : OutgoingWebhook :=
  webhook 3%N "weitersager" None {[ "channel" := VStr "#orga" ]} true.

Definition irc_public : OutgoingWebhook :=
  webhook 4%N "weitersager" None {[ "channel" := VStr "#lan" ]} true.

(** An IRC webhook nobody gave a channel. *)
Definition irc_no_channel : OutgoingWebhook :=
  webhook 5%N "weitersager" None ∅ true.

(** A board-scoped Discord webhook. *)
Definition discord_board : OutgoingWebhook :=
  {| id := 6%N;
     event_selectors := {[ "user-badge-awarded" ]};
     scope := "board";
     scope_id := Some "forum";
     format := "discord";
     text_prefix := None;
     extra_fields := ∅;
     url := "https://hooks.example/6";
     description := None;
     enabled := true |}.

Definition alice : User :=
  {| user_id_of := 10%N; screen_name := Some "Alice" |}.
Definition star : Badge := {| badge_id_of := 20%N; label := "Star" |}.

Definition store (registry : list OutgoingWebhook) : Store :=
  {| webhooks := registry;
     users := {[ 10%N := alice ]};
     badges := {[ 20%N := star ]} |}.

(** A network on which every request is answered with [status]. *)
Definition env_answering (status : nat) : Env :=
  {| http := fun _ _ => HttpResponse status;
     gettext := fun msgid => msgid;
     has_permission := fun _ => true;
     next_webhook_id := 100%N |}.

(** A network on which no request gets through. *)
Definition env_down : Env :=
  {| http := fun _ _ => HttpFailure "connection refused";
     gettext := fun msgid => msgid;
     has_permission := fun _ => true;
     next_webhook_id := 100%N |}.

Definition account_created : UserAccountCreated :=
  {| uac_initiator_id := None; uac_user_id := 10%N |}.

Definition badge_awarded : UserBadgeAwarded :=
  {| uba_initiator_id := None; uba_user_id := 10%N; uba_badge_id := 20%N |}.

Definition create_form : CreateForm :=
  {| cf_format := "discord";
     cf_url := "https://hooks.example/new";
     cf_description := "new hook";
     cf_event := fun _ => true |}.

Definition update_form : UpdateForm :=
  {| uf_format := "discord";
     uf_url := "https://hooks.example/new";
     uf_text_prefix := "[X] ";
     uf_description := "new hook";
     uf_enabled := true;
     uf_event := fun _ => true |}.

(** [str.lstrip] and [str.strip], for ASCII white space. *)
Fixpoint lstrip (s : string) : string :=
  match s with
  | EmptyString => EmptyString
  | String c s' => if Ascii.is_space c then lstrip s' else s
  end.

Fixpoint rstrip (s : string) : string :=
  match s with
  | EmptyString => EmptyString
  | String c s' =>
      match rstrip s' with
      | EmptyString => if Ascii.is_space c then EmptyString
                       else String c EmptyString
      | r => String c r
      end
  end.

Definition strip (s : string) : string := rstrip (lstrip s).

Definition event_names : gset string :=
  {[ "user-account-created"; "user-badge-awarded" ]}.

End Sample.

(** ** The other announcers of [byceps/announce/irc/user.py]

    These pass [event.initiator_id] to [find_user] without a check; the
    events are modelled with the id they carry. *)

Record UserScreenNameChanged : Type := mkUserScreenNameChanged {
  usnc_initiator_id : UserID;
  usnc_user_id : UserID;
  usnc_old_screen_name : option string;
  usnc_new_screen_name : option string;
}.

Record UserEmailAddressInvalidated : Type := mkUserEmailAddressInvalidated {
  ueai_initiator_id : UserID;
  ueai_user_id : UserID;
}.

Record UserDetailsUpdated : Type := mkUserDetailsUpdated {
  udu_initiator_id : UserID;
  udu_user_id : UserID;
}.

Record UserAccountSuspended : Type := mkUserAccountSuspended {
  uas_initiator_id : UserID;
  uas_user_id : UserID;
}.

Record UserAccountUnsuspended : Type := mkUserAccountUnsuspended {
  uau_initiator_id : UserID;
  uau_user_id : UserID;
}.

Record UserAccountDeleted : Type := mkUserAccountDeleted {
  uad_initiator_id : UserID;
  uad_user_id : UserID;
}.

Section IrcUserAnnouncers.

Variable CHANNEL_ORGA_LOG : string.

(** [str(user.id)], the text form of a UUID. *)
Variable uuid_str : UserID -> string.

Definition announce_user_screen_name_changed (event : UserScreenNameChanged)
  : M unit :=
  let channels := [CHANNEL_ORGA_LOG] in
  initiator <- find_user (usnc_initiator_id event) ;;
  initiator_screen_name <- getattr initiator "screen_name" screen_name ;;
  let text :=
    format_opt initiator_screen_name +:+ " hat das Benutzerkonto "
    +:+ dq +:+ format_opt (usnc_old_screen_name event) +:+ dq +:+ " in "
    +:+ dq +:+ format_opt (usnc_new_screen_name event) +:+ dq
    +:+ " umbenannt." in
  send_message channels text.

Definition announce_user_email_address_invalidated
    (event : UserEmailAddressInvalidated) : M unit :=
  let channels := [CHANNEL_ORGA_LOG] in
  user <- find_user (ueai_user_id event) ;;
  initiator <- find_user (ueai_initiator_id event) ;;
  initiator_screen_name <- getattr initiator "screen_name" screen_name ;;
  user_screen_name <- getattr user "screen_name" screen_name ;;
  let text :=
    format_opt initiator_screen_name +:+ " hat die E-Mail-Adresse "
    +:+ "des Benutzerkontos " +:+ dq +:+ format_opt user_screen_name +:+ dq
    +:+ " invalidiert." in
  send_message channels text.

Definition announce_user_details_updated_changed (event : UserDetailsUpdated)
  : M unit :=
  let channels := [CHANNEL_ORGA_LOG] in
  user <- find_user (udu_user_id event) ;;
  initiator <- find_user (udu_initiator_id event) ;;
  initiator_screen_name <- getattr initiator "screen_name" screen_name ;;
  user_screen_name <- getattr user "screen_name" screen_name ;;
  let text :=
    format_opt initiator_screen_name +:+ " hat die persönlichen Daten "
    +:+ "des Benutzerkontos " +:+ dq +:+ format_opt user_screen_name +:+ dq
    +:+ " geändert." in
  send_message channels text.

Definition announce_user_account_suspended (event : UserAccountSuspended)
  : M unit :=
  let channels := [CHANNEL_ORGA_LOG] in
  user <- find_user (uas_user_id event) ;;
  initiator <- find_user (uas_initiator_id event) ;;
  initiator_screen_name <- getattr initiator "screen_name" screen_name ;;
  user_screen_name <- getattr user "screen_name" screen_name ;;
  let text :=
    format_opt initiator_screen_name +:+ " hat das Benutzerkonto "
    +:+ dq +:+ format_opt user_screen_name +:+ dq +:+ " gesperrt." in
  send_message channels text.

Definition announce_user_account_unsuspended (event : UserAccountUnsuspended)
  : M unit :=
  let channels := [CHANNEL_ORGA_LOG] in
  user <- find_user (uau_user_id event) ;;
  initiator <- find_user (uau_initiator_id event) ;;
  initiator_screen_name <- getattr initiator "screen_name" screen_name ;;
  user_screen_name <- getattr user "screen_name" screen_name ;;
  let text :=
    format_opt initiator_screen_name +:+ " hat das Benutzerkonto "
    +:+ dq +:+ format_opt user_screen_name +:+ dq +:+ " entsperrt." in
  send_message channels text.

Definition announce_user_account_deleted (event : UserAccountDeleted)
  : M unit :=
  let channels := [CHANNEL_ORGA_LOG] in
  user <- find_user (uad_user_id event) ;;
  initiator <- find_user (uad_initiator_id event) ;;
  initiator_screen_name <- getattr initiator "screen_name" screen_name ;;
  user_id <- getattr user "id" user_id_of ;;
  let text :=
    format_opt initiator_screen_name +:+ " hat das Benutzerkonto "
    +:+ "mit der ID " +:+ dq +:+ uuid_str user_id +:+ dq +:+ " gelöscht." in
  send_message channels text.

End IrcUserAnnouncers.

(** ** The index view of [byceps/blueprints/admin/webhook/views.py] *)

(** [(w.description is None, w.description or '')] *)
Definition index_key (w : OutgoingWebhook) : bool * string :=
  (match description w with
   | None => true
   | Some _ => false
   end,
   match description w with
   | Some d => if str_truthy d then d else ""
   | None => ""
   end).

(** [a < b] on tuples [(bool, str)]: the first position where the tuples
    differ decides, [False < True] on the flags and the order of strings on
    the texts; equal tuples are not smaller. *)
Definition tuple_lt (a b : bool * string) : bool :=
  if Bool.eqb (fst a) (fst b) then
    if String.eqb (snd a) (snd b) then false
    else String.ltb (snd a) (snd b)
  else negb (fst a) && fst b.

(** [list.sort(key=...)] for keys that can always be compared: the stable
    insertion sort of the module [Py], without the exceptions. *)
Fixpoint insert_by_key {A K} (ltb : K -> K -> bool) (key : A -> K)
    (x : A) (l : list A) : list A :=
  match l with
  | [] => [x]
  | y :: l' =>
      if ltb (key y) (key x) then y :: insert_by_key ltb key x l'
      else x :: y :: l'
  end.

Fixpoint sort_by_key {A K} (ltb : K -> K -> bool) (key : A -> K)
    (l : list A) : list A :=
  match l with
  | [] => []
  | x :: l' => insert_by_key ltb key x (sort_by_key ltb key l')
  end.

(** Modelled from the spec: [get_all_webhooks] of the registry ("full CRUD
    for administration"): every stored webhook. *)
Definition get_all_webhooks : M (list OutgoingWebhook) :=
  st <- get_store ;;
  ret (webhooks st).

(** Show webhooks: the value is the ['webhooks'] entry of the template
    context. *)
Definition index : M (list OutgoingWebhook) :=
  permission_required "webhook.view" (
    webhooks <- get_all_webhooks ;;
    let webhooks := sort_by_key tuple_lt index_key webhooks in
    ret webhooks).

(** ** Further observations *)

(** The warnings logged in a trace, in order. *)
Fixpoint warnings (tr : list Effect) : list string :=
  match tr with
  | [] => []
  | LogWarning msg :: tr' => msg :: warnings tr'
  | _ :: tr' => warnings tr'
  end.

(** The flashed messages of a trace, in order. *)
Fixpoint flashes (tr : list Effect) : list Effect :=
  match tr with
  | [] => []
  | FlashSuccess t :: tr' => FlashSuccess t :: flashes tr'
  | FlashError t :: tr' => FlashError t :: flashes tr'
  | _ :: tr' => flashes tr'
  end.

(** [bool(channel)] is false: the entry is missing, [None] or empty. *)
Definition no_channel (w : OutgoingWebhook) : Prop :=
  extra_fields w !! "channel" = None
  \/ extra_fields w !! "channel" = Some VNone
  \/ extra_fields w !! "channel" = Some (VStr "").

(** The order of the index: webhooks with a description before those
    without, by description among the former. *)
Definition index_le (a b : bool * string) : Prop :=
  (fst a = fst b /\ String.leb (snd a) (snd b) = true)
  \/ (fst a = false /\ fst b = true).

Definition described (w : OutgoingWebhook) : Prop := description w <> None.

(** What an announcer that looks up two records does: it leaves the
    database alone and either hands over one message for [channel] whose
    text starts with the initiator's name and shows the other record in
    quotes, or raises [AttributeError] having sent nothing. *)
Definition all_or_nothing {A} (channel : string) (shown : A -> string)
    (initiator : option User) (other : option A) (st : Store)
    (o : Outcome unit) : Prop :=
  final o = st
  /\ match initiator, other with
     | Some i, Some x =>
         result o = Ok tt
         /\ exists rest,
              trace o
              = [SendMessage [channel]
                   (format_opt (screen_name i) +:+ rest)]
              /\ contains (dq +:+ shown x +:+ dq) rest
     | _, _ =>
         trace o = [] /\ exists attr, result o = Raise (AttributeError attr)
     end.

(** ** More sample data *)

Module MoreSample.

(** A webhook of a format the dispatcher has no payload shape for. *)
Definition slack : OutgoingWebhook :=
  Sample.webhook 7%N "slack" (Some "[X] ") ∅ true.

(** An IRC webhook whose channel entry is [None]. *)
Definition irc_none : OutgoingWebhook :=
  Sample.webhook 8%N "weitersager" None {[ "channel" := VNone ]} true.

Definition described_as (a_id : WebhookID) (a_description : option string)
  : OutgoingWebhook :=
  {| id := a_id;
     event_selectors := ∅;
     scope := "any";
     scope_id := None;
     format := "discord";
     text_prefix := None;
     extra_fields := ∅;
     url := "https://hooks.example/d";
     description := a_description;
     enabled := false |}.

Definition bob : User := {| user_id_of := 11%N; screen_name := Some "Bob" |}.

Definition store : Store :=
  {| webhooks := [Sample.discord];
     users := {[ 10%N := Sample.alice; 11%N := bob ]};
     badges := {[ 20%N := Sample.star ]} |}.

(** An environment whose user may view but not administrate. *)
Definition env_viewer : Env :=
  {| http := fun _ _ => HttpResponse 200;
     gettext := fun msgid => msgid;
     has_permission := fun p => String.eqb p "webhook.view";
     next_webhook_id := 100%N |}.

Definition uuid_str (i : UserID) : string :=
  if N.eqb i 10 then "00000000-0000-0000-0000-00000000000a" else "?".

(** What the create view stores for [Sample.create_form]. *)
Definition created : OutgoingWebhook :=
  {| id := 100%N;
     event_selectors := Sample.event_names;
     scope := "any";
     scope_id := None;
     format := "discord";
     text_prefix := None;
     extra_fields := ∅;
     url := "https://hooks.example/new";
     description := Some "new hook";
     enabled := false |}.

(** An account without screen name. *)
Definition nameless : User := {| user_id_of := 12%N; screen_name := None |}.

Definition store_nameless : Store :=
  {| webhooks := [];
     users := {[ 12%N := nameless ]};
     badges := ∅ |}.

(** The creation of the nameless account, without initiator. *)
Definition nameless_created : UserAccountCreated :=
  {| uac_initiator_id := None; uac_user_id := 12%N |}.

(** The creation of an account the database does not hold. *)
Definition unknown_created : UserAccountCreated :=
  {| uac_initiator_id := None; uac_user_id := 99%N |}.

End MoreSample.

(** * Properties *)

(** ** Payload assembly *)

Lemma lookup_discord_payload (text : string) (k : string) :
  ({[ "content" := VStr text ]} : Payload) !! k
  = if decide (k = "content") then Some (VStr text) else None.
Proof.
  destruct (decide (k = "content")) as [->|Hne].
  - apply lookup_singleton_eq.
  - apply lookup_singleton_ne. congruence.
Qed.

Lemma lookup_weitersager_payload (channel : value) (text k : string) :
  (<[ "channel" := channel ]> {[ "text" := VStr text ]} : Payload) !! k
  = if decide (k = "channel") then Some channel
    else if decide (k = "text") then Some (VStr text) else None.
Proof.
  destruct (decide (k = "channel")) as [->|Hne].
  - apply lookup_insert_eq.
  - rewrite lookup_insert_ne by congruence.
    destruct (decide (k = "text")) as [->|Hne'].
    + apply lookup_singleton_eq.
    + apply lookup_singleton_ne. congruence.
Qed.

Lemma assemble_discord webhook text env st :
  format webhook = "discord" ->
  _assemble_request_data webhook text env st
  = mkOutcome [] (Ok (Some {[ "content" := VStr text ]})) st.
Proof. intros H. unfold _assemble_request_data. now rewrite H. Qed.

Lemma assemble_weitersager webhook text env st :
  format webhook = "weitersager" ->
  _assemble_request_data webhook text env st
  = mkOutcome
      (if truthy (dict_get (extra_fields webhook) "channel") then []
       else [LogWarning "No channel specified with IRC webhook."])
      (Ok (Some (<[ "channel" := dict_get (extra_fields webhook) "channel" ]>
                   {[ "text" := VStr text ]})))
      st.
Proof.
  intros H. unfold _assemble_request_data. rewrite H. simpl.
  now destruct (truthy (dict_get (extra_fields webhook) "channel")).
Qed.

(** A format that is neither of the two: the function returns [None], and
    the request of [call_webhook] goes out without a JSON body. *)
Lemma assemble_other_format webhook text env st :
  format webhook <> "discord" -> format webhook <> "weitersager" ->
  _assemble_request_data webhook text env st = mkOutcome [] (Ok None) st.
Proof.
  intros Hd Hw. unfold _assemble_request_data.
  apply String.eqb_neq in Hd, Hw. now rewrite Hd, Hw.
Qed.

Lemma assemble_total webhook text env st :
  exists logs data,
    _assemble_request_data webhook text env st = mkOutcome logs (Ok data) st
    /\ posts logs = [] /\ invoked logs = [] /\ deliveries logs = [].
Proof.
  unfold _assemble_request_data.
  destruct (String.eqb (format webhook) "discord").
  { now eexists _, _. }
  destruct (String.eqb (format webhook) "weitersager").
  2: { now eexists _, _. }
  simpl. destruct (truthy (dict_get (extra_fields webhook) "channel"));
    now eexists _, _.
Qed.

(** C4.  The assembled request payload is exactly [{"content": text}] for
    the format "discord" and exactly [{"channel": channel-or-None, "text":
    text}] for the format "weitersager": these keys hold these values and
    every other key is absent. *)
Theorem assemble_request_data_exact webhook text env st :
  (format webhook = "discord" ->
   exists payload : Payload,
     result (_assemble_request_data webhook text env st) = Ok (Some payload)
     /\ forall k : string,
          payload !! k
          = if decide (k = "content") then Some (VStr text) else None)
  /\
  (format webhook = "weitersager" ->
   exists payload : Payload,
     result (_assemble_request_data webhook text env st) = Ok (Some payload)
     /\ forall k : string,
          payload !! k
          = if decide (k = "channel")
            then Some (match extra_fields webhook !! "channel" with
                       | Some channel => channel
                       | None => VNone
                       end)
            else if decide (k = "text") then Some (VStr text) else None).
Proof.
  split; intros Hf.
  - rewrite (assemble_discord _ _ _ _ Hf). eexists; split; [reflexivity|].
    apply lookup_discord_payload.
  - rewrite (assemble_weitersager _ _ _ _ Hf). eexists; split; [reflexivity|].
    intros k. apply lookup_weitersager_payload.
Qed.

(** ** The dispatcher *)

Lemma prefixed_nonempty p text :
  p <> "" -> prefixed (Some p) text = p +:+ text.
Proof. intros Hp. destruct p; [congruence | reflexivity]. Qed.

(** What a call of [call_webhook] does, step by step. *)
Lemma call_webhook_run webhook text env st :
  exists logs data,
    _assemble_request_data webhook (prefixed (text_prefix webhook) text) env st
    = mkOutcome logs (Ok data) st
    /\ posts logs = [] /\ invoked logs = [] /\ deliveries logs = []
    /\ call_webhook webhook text env st
       = mkOutcome
           (Invoke webhook text :: logs ++ [HttpPost (url webhook) data])
           (match http env (url webhook) data with
            | HttpResponse _ => Ok tt
            | HttpFailure msg => Raise (ConnectionError msg)
            end)
           st.
Proof.
  destruct (assemble_total webhook (prefixed (text_prefix webhook) text) env st)
    as (logs & data & Ha & Hp & Hi & Hd).
  exists logs, data. repeat (split; [assumption|]).
  unfold call_webhook, requests_post, bind, ask, emit, ret, raise. simpl.
  rewrite !Ha. simpl.
  destruct (http env (url webhook) data); simpl; reflexivity.
Qed.

Lemma posts_app tr1 tr2 : posts (tr1 ++ tr2) = posts tr1 ++ posts tr2.
Proof.
  induction tr1 as [|e tr1 IH]; [reflexivity|].
  destruct e; simpl; now rewrite IH.
Qed.

Lemma invoked_app tr1 tr2 : invoked (tr1 ++ tr2) = invoked tr1 ++ invoked tr2.
Proof.
  induction tr1 as [|e tr1 IH]; [reflexivity|].
  destruct e; simpl; now rewrite IH.
Qed.

Lemma deliveries_app tr1 tr2 :
  deliveries (tr1 ++ tr2) = deliveries tr1 ++ deliveries tr2.
Proof.
  induction tr1 as [|e tr1 IH]; [reflexivity|].
  destruct e; simpl; now rewrite IH.
Qed.

Lemma call_webhook_posts webhook text env st :
  exists data,
    result (_assemble_request_data webhook
              (prefixed (text_prefix webhook) text) env st) = Ok data
    /\ posts (trace (call_webhook webhook text env st))
       = [(url webhook, data)].
Proof.
  destruct (call_webhook_run webhook text env st)
    as (logs & data & Ha & Hp & _ & _ & Hc).
  exists data. rewrite Ha, Hc. simpl. split; [reflexivity|].
  now rewrite posts_app, Hp.
Qed.

Lemma call_webhook_invoked webhook text env st :
  invoked (trace (call_webhook webhook text env st)) = [webhook]
  /\ final (call_webhook webhook text env st) = st.
Proof.
  destruct (call_webhook_run webhook text env st)
    as (logs & data & _ & _ & Hi & _ & Hc).
  rewrite Hc. simpl. now rewrite invoked_app, Hi.
Qed.

(** C3, as the code has it.  For a webhook of the format "discord" or
    "weitersager", [call_webhook] makes one request whose payload carries
    the text with the webhook's text prefix prepended when a non-empty
    prefix is configured, and the text itself otherwise (no prefix, or an
    empty one).  With the prefix "[X] " and the message "hello" the payload
    text is "[X] hello". *)
Theorem call_webhook_prepends_prefix webhook text env st :
  format webhook = "discord" \/ format webhook = "weitersager" ->
  exists payload : Payload,
    posts (trace (call_webhook webhook text env st))
    = [(url webhook, Some payload)]
    /\ (forall p, text_prefix webhook = Some p -> p <> "" ->
        payload_text payload = Some (VStr (p +:+ text)))
    /\ (text_prefix webhook = None \/ text_prefix webhook = Some "" ->
        payload_text payload = Some (VStr text))
    /\ (text_prefix webhook = Some "[X] " -> text = "hello" ->
        payload_text payload = Some (VStr "[X] hello")).
Proof.
  intros Hf.
  destruct (call_webhook_posts webhook text env st) as (data & Ha & Hp).
  assert (Hpayload : exists payload : Payload,
            data = Some payload
            /\ payload_text payload
               = Some (VStr (prefixed (text_prefix webhook) text))).
  { destruct Hf as [Hf|Hf].
    - rewrite (assemble_discord _ _ _ _ Hf) in Ha. simpl in Ha.
      injection Ha as <-. eexists; split; [reflexivity|].
      unfold payload_text. now rewrite lookup_discord_payload.
    - rewrite (assemble_weitersager _ _ _ _ Hf) in Ha. simpl in Ha.
      injection Ha as <-. eexists; split; [reflexivity|].
      unfold payload_text. now rewrite !lookup_weitersager_payload. }
  destruct Hpayload as (payload & -> & Htext).
  exists payload. split; [exact Hp|]. rewrite Htext. split; [|split].
  - intros p Hprefix Hne. rewrite Hprefix. now rewrite prefixed_nonempty.
  - intros [H|H]; now rewrite H.
  - intros Hprefix Htxt. now rewrite Hprefix, Htxt.
Qed.

(** C3, as the claim states it, at a webhook of the format "slack" with
    the prefix "[X] " and the message "hello": the one request goes out
    without a JSON body, so no text is delivered, prefixed or not. *)
Lemma call_webhook_unknown_format_delivers_no_text :
  let env := Sample.env_answering 204 in
  let st := Sample.store [] in
  text_prefix MoreSample.slack = Some "[X] "
  /\ posts (trace (call_webhook MoreSample.slack "hello" env st))
     = [(url MoreSample.slack, None)]
  /\ ~ (exists payload : Payload,
          posts (trace (call_webhook MoreSample.slack "hello" env st))
          = [(url MoreSample.slack, Some payload)]
          /\ payload_text payload = Some (VStr "[X] hello")).
Proof.
  cbv zeta.
  assert (Hposts :
    posts (trace (call_webhook MoreSample.slack "hello"
                    (Sample.env_answering 204) (Sample.store [])))
    = [(url MoreSample.slack, None)]) by (vm_compute; reflexivity).
  split; [reflexivity|]. split; [exact Hposts|].
  intros (payload & Hsome & _). rewrite Hposts in Hsome. discriminate Hsome.
Qed.

(** ** The order on strings *)

Lemma string_compare_refl (s : string) : String.compare s s = Eq.
Proof.
  pose proof (String.compare_antisym s s) as H.
  destruct (String.compare s s); simpl in H; congruence.
Qed.

Lemma string_ltb_false_leb (a b : string) :
  String.ltb b a = false -> String.leb a b = true.
Proof.
  unfold String.ltb, String.leb. rewrite (String.compare_antisym a b).
  now destruct (String.compare b a).
Qed.

Lemma string_ltb_leb (a b : string) :
  String.ltb a b = true -> String.leb a b = true.
Proof.
  unfold String.ltb, String.leb. now destruct (String.compare a b).
Qed.

Lemma string_ltb_neq (a b : string) : String.ltb a b = true -> a <> b.
Proof.
  intros H ->. unfold String.ltb in H.
  now rewrite string_compare_refl in H.
Qed.

Lemma ascii_compare_N (a b : ascii) :
  Ascii.compare a b = N.compare (N_of_ascii a) (N_of_ascii b).
Proof. reflexivity. Qed.

Lemma ascii_compare_eq (a b : ascii) : Ascii.compare a b = Eq -> a = b.
Proof. apply Ascii.compare_eq_iff. Qed.

Lemma ascii_compare_lt_trans (a b c : ascii) :
  Ascii.compare a b = Lt -> Ascii.compare b c = Lt -> Ascii.compare a c = Lt.
Proof.
  rewrite !ascii_compare_N, !N.compare_lt_iff. lia.
Qed.

Lemma string_leb_trans (a b c : string) :
  String.leb a b = true -> String.leb b c = true -> String.leb a c = true.
Proof.
  unfold String.leb. revert b c.
  induction a as [|x a IH]; intros [|y b] [|z c]; simpl; try congruence.
  destruct (Ascii.compare x y) eqn:Hxy; try congruence;
    destruct (Ascii.compare y z) eqn:Hyz; try congruence; intros H1 H2.
  - apply ascii_compare_eq in Hxy, Hyz. subst.
    rewrite (proj2 (N.compare_eq_iff _ _) eq_refl : Ascii.compare z z = Eq).
    now apply (IH b c).
  - apply ascii_compare_eq in Hxy. subst. now rewrite Hyz.
  - apply ascii_compare_eq in Hyz. subst. now rewrite Hxy.
  - now rewrite (ascii_compare_lt_trans _ _ _ Hxy Hyz).
Qed.

(** ** [list.sort(key=...)] *)

Section ListSort.

Context {A : Type}.
Implicit Types (x y : value * A) (l r : list (value * A)).

Lemma lt_inv (u v : value) (b : bool) :
  lt u v = Ok b -> exists a c, u = VStr a /\ v = VStr c /\ b = String.ltb a c.
Proof.
  destruct u as [|a], v as [|c]; simpl; try discriminate.
  intros [= <-]. now exists a, c.
Qed.

Lemma insert_keyed_perm x l r : insert_keyed x l = Ok r -> r ≡ₚ x :: l.
Proof.
  revert r. induction l as [|y l IH]; simpl; intros r.
  - now intros [= <-].
  - destruct (lt (fst y) (fst x)) as [[|]|]; simpl; try discriminate.
    + destruct (insert_keyed x l) as [r'|]; simpl; try discriminate.
      intros [= <-]. rewrite (IH r' eq_refl). apply Permutation_swap.
    + now intros [= <-].
Qed.

Lemma insert_keyed_hd x y l r :
  insert_keyed x l = Ok r ->
  keyed_le y x -> HdRel keyed_le y l -> HdRel keyed_le y r.
Proof.
  destruct l as [|z l]; simpl.
  - intros [= <-] Hx _. now constructor.
  - destruct (lt (fst z) (fst x)) as [[|]|]; simpl; try discriminate.
    + destruct (insert_keyed x l) as [r'|]; simpl; try discriminate.
      intros [= <-] _ Hz. inversion Hz; subst. now constructor.
    + intros [= <-] Hx _. now constructor.
Qed.

Lemma insert_keyed_sorted x l r :
  insert_keyed x l = Ok r -> Sorted keyed_le l -> Sorted keyed_le r.
Proof.
  revert r. induction l as [|y l IH]; simpl; intros r.
  - intros [= <-] _. repeat constructor.
  - destruct (lt (fst y) (fst x)) as [b|] eqn:Hlt; simpl; try discriminate.
    apply lt_inv in Hlt as (a & c & Hy & Hx & ->).
    destruct (String.ltb a c) eqn:Hac.
    + destruct (insert_keyed x l) as [r'|] eqn:Hins; simpl; try discriminate.
      intros [= <-] Hs. inversion Hs as [|? ? Hs' Hhd]; subst.
      constructor; [now apply IH|].
      apply (insert_keyed_hd x y l r' Hins); [|assumption].
      unfold keyed_le. rewrite Hy, Hx. now apply string_ltb_leb.
    + intros [= <-] Hs. constructor; [assumption|]. constructor.
      unfold keyed_le. rewrite Hy, Hx. now apply string_ltb_false_leb.
Qed.

(** Stability: the elements with a given key keep their order, the new
    element going before them. *)
Lemma insert_keyed_stable (v : value) x l r :
  insert_keyed x l = Ok r ->
  filter (fun p => fst p = v) r = filter (fun p => fst p = v) (x :: l).
Proof.
  revert r. induction l as [|y l IH]; simpl; intros r.
  - now intros [= <-].
  - destruct (lt (fst y) (fst x)) as [b|] eqn:Hlt; simpl; try discriminate.
    apply lt_inv in Hlt as (a & c & Hy & Hx & ->).
    destruct (String.ltb a c) eqn:Hac; [|now intros [= <-]].
    destruct (insert_keyed x l) as [r'|] eqn:Hins; simpl; try discriminate.
    intros [= <-]. apply string_ltb_neq in Hac.
    rewrite !filter_cons, (IH r' eq_refl), !filter_cons.
    destruct (decide (fst y = v)) as [Hyv|Hyv];
      destruct (decide (fst x = v)) as [Hxv|Hxv]; try reflexivity.
    exfalso. apply Hac. congruence.
Qed.

Lemma sort_keyed_perm l r : sort_keyed l = Ok r -> r ≡ₚ l.
Proof.
  revert r. induction l as [|x l IH]; simpl; intros r.
  - now intros [= <-].
  - destruct (sort_keyed l) as [s|]; simpl; try discriminate.
    intros H. rewrite (insert_keyed_perm _ _ _ H). now rewrite (IH s).
Qed.

Lemma sort_keyed_sorted l r : sort_keyed l = Ok r -> Sorted keyed_le r.
Proof.
  revert r. induction l as [|x l IH]; simpl; intros r.
  - intros [= <-]. constructor.
  - destruct (sort_keyed l) as [s|]; simpl; try discriminate.
    intros H. apply (insert_keyed_sorted _ _ _ H). now apply IH.
Qed.

Lemma sort_keyed_stable (v : value) l r :
  sort_keyed l = Ok r ->
  filter (fun p => fst p = v) r = filter (fun p => fst p = v) l.
Proof.
  revert r. induction l as [|x l IH]; simpl; intros r.
  - now intros [= <-].
  - destruct (sort_keyed l) as [s|]; simpl; try discriminate.
    intros H. rewrite (insert_keyed_stable v _ _ _ H).
    rewrite !filter_cons. now rewrite (IH s eq_refl).
Qed.

(** The sort succeeds on keys that are all strings. *)
Lemma insert_keyed_total x l :
  Forall (fun p => exists a, fst p = VStr a) (x :: l) ->
  exists r, insert_keyed x l = Ok r.
Proof.
  intros H. inversion H as [|? ? [c Hx] Hl]; subst. clear H.
  induction l as [|y l IH]; simpl; [now eexists|].
  inversion Hl as [|? ? [a Hy] Hl']; subst.
  rewrite Hy, Hx. simpl. destruct (String.ltb a c); [|now eexists].
  destruct (IH Hl') as [r ->]. simpl. now eexists.
Qed.

Lemma sort_keyed_total l :
  Forall (fun p => exists a, fst p = VStr a) l ->
  exists r, sort_keyed l = Ok r.
Proof.
  induction l as [|x l IH]; simpl; intros H; [now eexists|].
  inversion H as [|? ? Hx Hl]; subst.
  destruct (IH Hl) as [s Hs]. rewrite Hs. simpl.
  apply insert_keyed_total. constructor; [assumption|].
  now rewrite (sort_keyed_perm _ _ Hs).
Qed.

(** *** From keyed pairs back to the elements *)

Variable key : A -> Res value.

Lemma compute_keys_spec (l : list A) ks :
  compute_keys key l = Ok ks -> map snd ks = l /\ Forall (keyed_by key) ks.
Proof.
  revert ks. induction l as [|a l IH]; simpl; intros ks.
  - intros [= <-]. now split.
  - destruct (key a) as [k|] eqn:Hk; simpl; try discriminate.
    destruct (compute_keys key l) as [ks'|]; simpl; try discriminate.
    intros [= <-]. destruct (IH ks' eq_refl) as [Hm Hf]. simpl.
    split; [now rewrite Hm|]. now constructor.
Qed.

Lemma compute_keys_total (l : list A) :
  Forall (fun a => exists k, key a = Ok k) l ->
  exists ks, compute_keys key l = Ok ks.
Proof.
  induction l as [|a l IH]; simpl; intros H; [now eexists|].
  inversion H as [|? ? [k Hk] Hl]; subst. rewrite Hk. simpl.
  destruct (IH Hl) as [ks ->]. simpl. now eexists.
Qed.

Lemma compute_keys_raise (l : list A) a e :
  a ∈ l -> (forall b, b ∈ l -> key b = Raise e \/ exists k, key b = Ok k) ->
  key a = Raise e -> compute_keys key l = Raise e.
Proof.
  induction l as [|b l IH]; intros Hin Hall Ha; [now inversion Hin|].
  simpl. destruct (Hall b ltac:(left)) as [Hb|[k Hb]]; rewrite Hb; simpl.
  - reflexivity.
  - inversion Hin; subst; [congruence|].
    rewrite IH; auto. intros c Hc. apply Hall. now right.
Qed.

Lemma sorted_keyed_map s :
  Forall (keyed_by key) s -> Sorted keyed_le s ->
  Sorted (key_le key) (map snd s).
Proof.
  induction s as [|x s IH]; simpl; intros Hk Hs; [constructor|].
  inversion Hk as [|? ? Hx Hk']; subst.
  inversion Hs as [|? ? Hs' Hhd]; subst.
  constructor; [now apply IH|].
  destruct s as [|y s]; simpl; constructor.
  inversion Hhd as [|? ? Hxy]; subst. inversion Hk' as [|? ? Hy _]; subst.
  unfold keyed_le in Hxy. unfold key_le. unfold keyed_by in Hx, Hy.
  now rewrite Hx, Hy.
Qed.

Lemma filter_keyed_map (Q : A -> Prop) `{!forall a, Decision (Q a)}
    (v : value) s :
  (forall a k, key a = Ok k -> (Q a <-> k = v)) ->
  Forall (keyed_by key) s ->
  filter Q (map snd s) = map snd (filter (fun p => fst p = v) s).
Proof.
  intros HQ. induction s as [|x s IH]; simpl; intros Hk; [reflexivity|].
  inversion Hk as [|? ? Hx Hk']; subst.
  rewrite !filter_cons, (IH Hk').
  destruct (decide (Q x.2)) as [Hq|Hq];
    destruct (decide (x.1 = v)) as [Hv|Hv]; try reflexivity.
  - exfalso. apply Hv. now apply (HQ _ _ Hx).
  - exfalso. apply Hq. now apply (HQ _ _ Hx).
Qed.

(** What [list.sort(key=...)] returns: the same elements, ordered by
    their keys, elements of equal key in their former order. *)
Lemma list_sort_spec (l r : list A) :
  list_sort key l = Ok r ->
  r ≡ₚ l
  /\ Sorted (key_le key) r
  /\ forall (Q : A -> Prop) `{!forall a, Decision (Q a)} (v : value),
       (forall a k, key a = Ok k -> (Q a <-> k = v)) ->
       filter Q r = filter Q l.
Proof.
  unfold list_sort.
  destruct (compute_keys key l) as [ks|] eqn:Hks; simpl; try discriminate.
  destruct (sort_keyed ks) as [s|] eqn:Hs; simpl; try discriminate.
  intros [= <-].
  destruct (compute_keys_spec _ _ Hks) as [Hm Hk].
  pose proof (sort_keyed_perm _ _ Hs) as Hperm.
  assert (Hk' : Forall (keyed_by key) s) by now rewrite Hperm.
  split; [|split].
  - rewrite <- Hm. now apply Permutation_map.
  - apply sorted_keyed_map; [assumption|]. now apply (sort_keyed_sorted ks).
  - intros Q HQdec v HQ.
    rewrite (filter_keyed_map Q v s HQ Hk'), (sort_keyed_stable v _ _ Hs).
    rewrite <- (filter_keyed_map Q v ks HQ Hk). now rewrite Hm.
Qed.

Lemma list_sort_total (l : list A) :
  Forall (fun a => exists c, key a = Ok (VStr c)) l ->
  exists sorted : list A, list_sort key l = Ok sorted.
Proof.
  intros H. unfold list_sort.
  destruct (compute_keys_total l) as [ks Hks].
  { eapply Forall_impl; [exact H|]. intros a [c Hc]. simpl. eauto. }
  rewrite Hks. simpl.
  destruct (compute_keys_spec _ _ Hks) as [Hm Hk].
  destruct (sort_keyed_total ks) as [s Hs].
  { subst l. clear Hks. induction ks as [|x ks IH]; constructor.
    - inversion H as [|? ? [c Hc] _]; subst.
      inversion Hk as [|? ? Hx _]; subst. unfold keyed_by in Hx.
      exists c. congruence.
    - inversion H; inversion Hk; subst. now apply IH. }
  rewrite Hs. simpl. now eexists.
Qed.

End ListSort.

(** ** Webhook lookup *)

Lemma enabled_outgoing_webhooks_elem event_name fmt registry w :
  w ∈ enabled_outgoing_webhooks event_name fmt registry <->
  w ∈ registry /\ enabled w = true /\ event_name ∈ event_selectors w
  /\ format w = fmt.
Proof.
  unfold enabled_outgoing_webhooks. rewrite list_elem_of_filter. tauto.
Qed.

Lemma channel_le_key_le (a b : OutgoingWebhook) :
  key_le (fun wh => dict_getitem (extra_fields wh) "channel") a b ->
  channel_le a b.
Proof.
  unfold key_le, channel_le, dict_getitem.
  destruct (extra_fields a !! "channel") as [[|x]|];
    destruct (extra_fields b !! "channel") as [[|y]|]; tauto.
Qed.

Lemma channel_le_trans (a b c : OutgoingWebhook) :
  channel_le a b -> channel_le b c -> channel_le a c.
Proof.
  unfold channel_le.
  destruct (extra_fields a !! "channel") as [[|x]|];
    destruct (extra_fields b !! "channel") as [[|y]|];
    destruct (extra_fields c !! "channel") as [[|z]|]; try tauto.
  apply string_leb_trans.
Qed.

Lemma sorted_channel_le (ws : list OutgoingWebhook) :
  Sorted (key_le (fun wh => dict_getitem (extra_fields wh) "channel")) ws ->
  StronglySorted channel_le ws.
Proof.
  intros H. apply Sorted_StronglySorted.
  - intros a b c. apply channel_le_trans.
  - induction H as [|a l Hs IH Hhd]; constructor; [assumption|].
    destruct Hhd; constructor. now apply channel_le_key_le.
Qed.

Section HelpersFacts.

Variable get_name_for_event : Event -> string.

Lemma get_webhooks_for_discord_run event env st :
  get_webhooks_for_discord get_name_for_event event env st
  = mkOutcome []
      (Ok (enabled_outgoing_webhooks (get_name_for_event event) "discord"
             (webhooks st)))
      st.
Proof. reflexivity. Qed.

Lemma get_webhooks_for_irc_run event env st :
  get_webhooks_for_irc get_name_for_event event env st
  = match enabled_outgoing_webhooks (get_name_for_event event) "weitersager"
            (webhooks st) with
    | [] =>
        mkOutcome
          [LogWarning
             "No enabled IRC webhooks found. Not sending message to IRC."]
          (Ok []) st
    | found =>
        mkOutcome []
          (list_sort (fun wh => dict_getitem (extra_fields wh) "channel")
                     found)
          st
    end.
Proof.
  unfold get_webhooks_for_irc, get_enabled_outgoing_webhooks, bind,
    get_store, ret, lift, logger_warning, emit. simpl.
  now destruct (enabled_outgoing_webhooks _ _ _).
Qed.

(** C5.  The list [get_webhooks_for_irc] returns holds the enabled
    IRC-format webhooks subscribed to the event, sorted by their channel
    (every webhook's channel is at most the channel of every later one),
    webhooks of one channel in the order of the lookup; an empty lookup
    result is returned as an empty list; and a list is returned whenever
    every webhook found has a string for its channel. *)
Theorem get_webhooks_for_irc_sorted event env st :
  let found :=
    enabled_outgoing_webhooks (get_name_for_event event) "weitersager"
      (webhooks st) in
  (found = [] ->
   result (get_webhooks_for_irc get_name_for_event event env st) = Ok [])
  /\ (forall ws,
        result (get_webhooks_for_irc get_name_for_event event env st) = Ok ws ->
        ws ≡ₚ found
        /\ StronglySorted channel_le ws
        /\ forall channel : value,
             filter (fun w => extra_fields w !! "channel" = Some channel) ws
             = filter (fun w => extra_fields w !! "channel" = Some channel)
                      found)
  /\ (Forall (fun w => exists c, extra_fields w !! "channel" = Some (VStr c))
             found ->
      exists ws,
        result (get_webhooks_for_irc get_name_for_event event env st) = Ok ws).
Proof.
  intros found. rewrite get_webhooks_for_irc_run. fold found.
  split; [|split].
  - now intros ->.
  - intros ws. destruct found as [|w0 found'] eqn:Hfound; simpl.
    + intros [= <-]. repeat split; constructor.
    + intros Hsort. apply list_sort_spec in Hsort as (Hperm & Hsorted & Hstab).
      split; [assumption|]. split; [now apply sorted_channel_le|].
      intros channel. apply (Hstab _ _ channel).
      intros a k. unfold dict_getitem.
      destruct (extra_fields a !! "channel"); [|discriminate].
      intros [= <-]. split; congruence.
  - intros Hall. destruct found as [|w0 found'] eqn:Hfound; simpl.
    + now eexists.
    + apply list_sort_total. eapply Forall_impl; [exact Hall|].
      intros w [c Hc]. exists c. unfold dict_getitem. now rewrite Hc.
Qed.

(** A webhook without a ["channel"] entry makes the sort key raise, and
    with it [get_webhooks_for_irc]. *)
Lemma get_webhooks_for_irc_key_error event env st w :
  w ∈ enabled_outgoing_webhooks (get_name_for_event event) "weitersager"
        (webhooks st) ->
  extra_fields w !! "channel" = None ->
  get_webhooks_for_irc get_name_for_event event env st
  = mkOutcome [] (Raise (KeyError "channel")) st.
Proof.
  intros Hin Hnone. rewrite get_webhooks_for_irc_run.
  destruct (enabled_outgoing_webhooks _ _ _) as [|w0 found] eqn:Hfound;
    [now inversion Hin|].
  f_equal. unfold list_sort.
  rewrite (compute_keys_raise _ (w0 :: found) w (KeyError "channel")); auto.
  - intros b _. unfold dict_getitem.
    destruct (extra_fields b !! "channel"); eauto.
  - unfold dict_getitem. now rewrite Hnone.
Qed.

(** *** The delivery loop *)

Lemma call_webhooks_invoked targets text env st :
  (exists rest,
     targets
     = invoked (trace (call_webhooks targets text env st)) ++ rest)
  /\ final (call_webhooks targets text env st) = st.
Proof.
  revert st. induction targets as [|w targets IH]; intros st; simpl.
  - split; [now exists []|reflexivity].
  - destruct (call_webhook_run w text env st)
      as (logs & data & _ & _ & Hi & _ & Hc).
    unfold bind. rewrite Hc. simpl.
    destruct (http env (url w) data); simpl.
    + rewrite !invoked_app, Hi. simpl.
      destruct (IH st) as [[rest Hrest] Hfin].
      split; [|assumption]. exists rest. now rewrite <- Hrest.
    + rewrite invoked_app, Hi. simpl. split; [|reflexivity].
      now exists targets.
Qed.

Lemma call_webhooks_invoked_elem targets text env st w :
  w ∈ invoked (trace (call_webhooks targets text env st)) -> w ∈ targets.
Proof.
  destruct (call_webhooks_invoked targets text env st) as [[rest Hrest] _].
  intros Hin. rewrite Hrest. apply elem_of_app. now left.
Qed.

Lemma announce_discord_invoked event text env st w :
  w ∈ invoked (trace (announce_discord get_name_for_event event text env st))
  -> w ∈ enabled_outgoing_webhooks (get_name_for_event event) "discord"
           (webhooks st).
Proof.
  unfold announce_discord, bind. rewrite get_webhooks_for_discord_run.
  simpl. apply call_webhooks_invoked_elem.
Qed.

Lemma announce_discord_scoped_invoked event a_scope a_scope_id text env st w :
  w ∈ invoked (trace (announce_discord_scoped get_name_for_event event
                        a_scope a_scope_id text env st))
  -> w ∈ enabled_outgoing_webhooks (get_name_for_event event) "discord"
           (webhooks st)
     /\ match_scope w a_scope a_scope_id = true.
Proof.
  unfold announce_discord_scoped, bind. rewrite get_webhooks_for_discord_run.
  simpl. intros Hin. apply call_webhooks_invoked_elem in Hin.
  apply list_elem_of_In, filter_In in Hin as [Hin Hm].
  split; [now apply list_elem_of_In|assumption].
Qed.

Lemma announce_irc_invoked event text env st w :
  w ∈ invoked (trace (announce_irc get_name_for_event event text env st))
  -> w ∈ enabled_outgoing_webhooks (get_name_for_event event) "weitersager"
           (webhooks st).
Proof.
  unfold announce_irc, bind. rewrite get_webhooks_for_irc_run.
  destruct (enabled_outgoing_webhooks _ _ _) as [|w0 found] eqn:Hfound.
  - simpl. intros Hin. inversion Hin.
  - simpl.
    destruct (list_sort _ (w0 :: found)) as [ws|e] eqn:Hsort; simpl.
    + intros Hin. apply call_webhooks_invoked_elem in Hin.
      apply list_sort_spec in Hsort as (Hperm & _). now rewrite <- Hperm.
    + intros Hin. inversion Hin.
Qed.

(** C1.  Whatever event an announcer handles, [call_webhook] is entered
    for a webhook only if that webhook is in the registry, is enabled and
    has the event's type name in its selector set; so it is never entered
    for a disabled webhook, nor for one whose selector set lacks the
    event's type. *)
Theorem dispatch_only_enabled_subscribed
    event text a_scope a_scope_id env st webhook :
  webhook ∈ invoked (trace (announce_discord get_name_for_event event text
                              env st))
  \/ webhook ∈ invoked (trace (announce_discord_scoped get_name_for_event
                                event a_scope a_scope_id text env st))
  \/ webhook ∈ invoked (trace (announce_irc get_name_for_event event text
                                env st)) ->
  webhook ∈ webhooks st
  /\ enabled webhook = true
  /\ get_name_for_event event ∈ event_selectors webhook.
Proof.
  intros [H|[H|H]].
  - apply announce_discord_invoked, enabled_outgoing_webhooks_elem in H.
    tauto.
  - apply announce_discord_scoped_invoked in H as [H _].
    apply enabled_outgoing_webhooks_elem in H. tauto.
  - apply announce_irc_invoked, enabled_outgoing_webhooks_elem in H. tauto.
Qed.

Lemma match_scope_spec webhook a_scope a_scope_id :
  match_scope webhook a_scope a_scope_id = true <->
  scope webhook = a_scope /\ scope_id webhook = Some a_scope_id.
Proof.
  unfold match_scope.
  rewrite andb_true_iff, String.eqb_eq, bool_decide_eq_true. tauto.
Qed.

(** C2.  Where an announcer filters by scope, [call_webhook] is entered
    for a webhook only if the webhook's scope equals the event's scope
    type and the webhook's scope id equals the event's scope id; these
    two equalities are what [match_scope] decides. *)
Theorem scoped_dispatch_requires_scope_match
    event a_scope a_scope_id text env st webhook :
  (match_scope webhook a_scope a_scope_id = true <->
   scope webhook = a_scope /\ scope_id webhook = Some a_scope_id)
  /\ (webhook ∈ invoked (trace (announce_discord_scoped get_name_for_event
                                  event a_scope a_scope_id text env st)) ->
      scope webhook = a_scope /\ scope_id webhook = Some a_scope_id).
Proof.
  split; [apply match_scope_spec|].
  intros H. apply announce_discord_scoped_invoked in H as [_ H].
  now apply match_scope_spec.
Qed.

End HelpersFacts.

(** C6.  An enabled IRC webhook without a ["channel"] entry, subscribed to
    the event: the sort key of [get_webhooks_for_irc] raises [KeyError], so
    the announcer delivers nothing, although [call_webhook] itself would
    have warned and sent the payload with channel [None]. *)
Theorem irc_webhook_without_channel_aborts_lookup :
  let st := Sample.store [Sample.irc_no_channel] in
  let env := Sample.env_answering 200 in
  let event := EvUserBadgeAwarded Sample.badge_awarded in
  result (get_webhooks_for_irc Sample.event_name event env st)
  = Raise (KeyError "channel")
  /\ announce_irc Sample.event_name event "hello" env st
     = mkOutcome [] (Raise (KeyError "channel")) st
  /\ call_webhook Sample.irc_no_channel "hello" env st
     = mkOutcome
         [Invoke Sample.irc_no_channel "hello";
          LogWarning "No channel specified with IRC webhook.";
          HttpPost "https://hooks.example/1"
            (Some (<[ "channel" := VNone ]> {[ "text" := VStr "hello" ]}))]
         (Ok tt) st.
Proof. vm_compute. repeat split; reflexivity. Qed.

(** ** The IRC announcers *)

Lemma contains_intro (before s after : string) :
  contains s (before +:+ s +:+ after).
Proof. now exists before, after. Qed.

Lemma append_assoc (a b c : string) : (a +:+ b) +:+ c = a +:+ b +:+ c.
Proof.
  induction a as [|x a IH]; [reflexivity|].
  change (String x ((a +:+ b) +:+ c) = String x (a +:+ b +:+ c)).
  now f_equal.
Qed.

Lemma append_nil_l (s : string) : "" +:+ s = s.
Proof. reflexivity. Qed.

Lemma append_cons (c : ascii) (s t : string) :
  String c s +:+ t = String c (s +:+ t).
Proof. reflexivity. Qed.

Lemma contains_nil (a : ascii) (s : string) : ~ contains (String a s) "".
Proof.
  intros (before & after & H). destruct before as [|d before].
  - rewrite append_nil_l, append_cons in H. discriminate H.
  - rewrite append_cons in H. discriminate H.
Qed.

(** An occurrence cannot start at a character that is not its first. *)
Lemma contains_skip (a : ascii) (s : string) (c : ascii) (x : string) :
  c <> a -> contains (String a s) (String c x) -> contains (String a s) x.
Proof.
  intros Hne (before & after & H). destruct before as [|d before].
  - rewrite append_nil_l, append_cons in H. injection H as Hc _. contradiction.
  - rewrite append_cons in H. injection H as _ H. now exists before, after.
Qed.

Lemma contains_cons (s : string) (c : ascii) (x : string) :
  contains s x -> contains s (String c x).
Proof.
  intros (before & after & ->). exists (String c before), after.
  now rewrite append_cons.
Qed.

Ltac skip_char H :=
  apply contains_skip in H;
  [|let Hc := fresh in intros Hc; vm_compute in Hc; discriminate Hc].

Ltac norm_append H :=
  repeat first [rewrite append_nil_l in H | rewrite append_cons in H].

(** "None" within a name followed by the closing quote and the rest of the
    sentence lies within the name. *)
Lemma none_within_name (name : string) :
  contains "None" (name +:+ dq +:+ " angelegt.") -> contains "None" name.
Proof.
  unfold dq. induction name as [|c n IH]; intros H.
  - norm_append H. repeat skip_char H. now apply contains_nil in H.
  - norm_append H. destruct H as (before & after & H).
    destruct before as [|d before]; norm_append H.
    + injection H as -> H.
      destruct n as [|c1 n]; norm_append H;
        [vm_compute in H; discriminate H|].
      injection H as -> H.
      destruct n as [|c2 n]; norm_append H;
        [vm_compute in H; discriminate H|].
      injection H as -> H.
      destruct n as [|c3 n]; norm_append H;
        [vm_compute in H; discriminate H|].
      injection H as -> H.
      now exists "", n.
    + injection H as -> H.
      apply contains_cons, IH. now exists before, after.
Qed.

(** "None" within the account-created sentence lies within the name. *)
Lemma none_within_account_created (name : string) :
  contains "None"
    ("Jemand hat das Benutzerkonto " +:+ dq +:+ name +:+ dq +:+ " angelegt.")
  -> contains "None" name.
Proof.
  intros H. apply none_within_name. unfold dq at 1 in H.
  norm_append H. do 30 skip_char H. exact H.
Qed.

Section IrcAnnouncersFacts.

Variable CHANNEL_ORGA_LOG : string.

(** C7, as the code has it.  For a [UserAccountCreated] event without
    initiator whose account exists, the announcer does not raise and hands
    over one message for the organizer log channel, whose actor name is the
    fallback "Jemand": the text is "Jemand hat das Benutzerkonto "<name>"
    angelegt.", where <name> is the account's screen name as an f-string
    renders it.  The text starts with "Jemand " and not with "None", and
    "None" occurs in it only where it occurs in the rendered account name.
    "Jemand" is also what [get_screen_name_or_fallback] gives for no
    name. *)
Theorem announce_user_account_created_fallback event env st user :
  uac_initiator_id event = None ->
  users st !! uac_user_id event = Some user ->
  exists text,
    announce_user_account_created CHANNEL_ORGA_LOG event env st
    = mkOutcome [SendMessage [CHANNEL_ORGA_LOG] text] (Ok tt) st
    /\ text = "Jemand hat das Benutzerkonto " +:+ dq
              +:+ format_opt (screen_name user) +:+ dq +:+ " angelegt."
    /\ String.prefix "Jemand " text = true
    /\ String.prefix "None" text = false
    /\ (contains "None" text ->
        contains "None" (format_opt (screen_name user)))
    /\ get_screen_name_or_fallback None = "Jemand".
Proof.
  intros Hinit Huser. eexists. split; [|split; [reflexivity|]].
  - unfold announce_user_account_created, find_user, bind, get_store, ret,
      getattr, send_message, emit. simpl.
    rewrite Hinit, Huser. simpl. reflexivity.
  - split; [reflexivity|]. split; [reflexivity|].
    split; [apply none_within_account_created|reflexivity].
Qed.

(** C8, as the code has it.  For a [UserBadgeAwarded] event whose
    recipient and badge exist (and whose initiator, if there is one,
    exists), the announcer hands over exactly one message, for the fixed
    channel list [[CHANNEL_ORGA_LOG]] and whatever the webhook registry
    holds; it enters [call_webhook] for no webhook; and the text contains
    the badge's label and the recipient's screen name. *)
Theorem announce_user_badge_awarded_single_message event env st user badge :
  users st !! uba_user_id event = Some user ->
  badges st !! uba_badge_id event = Some badge ->
  (forall initiator_id,
     uba_initiator_id event = Some initiator_id ->
     is_Some (users st !! initiator_id)) ->
  exists text,
    announce_user_badge_awarded CHANNEL_ORGA_LOG event env st
    = mkOutcome [SendMessage [CHANNEL_ORGA_LOG] text] (Ok tt) st
    /\ deliveries (trace (announce_user_badge_awarded CHANNEL_ORGA_LOG
                            event env st))
       = [SendMessage [CHANNEL_ORGA_LOG] text]
    /\ invoked (trace (announce_user_badge_awarded CHANNEL_ORGA_LOG
                         event env st)) = []
    /\ contains (label badge) text
    /\ contains (format_opt (screen_name user)) text.
Proof.
  intros Huser Hbadge Hinit.
  set (name :=
         match uba_initiator_id event with
         | Some i => match users st !! i with
                     | Some u => format_opt (screen_name u)
                     | None => ""
                     end
         | None => "Jemand"
         end).
  assert (Hrun :
    announce_user_badge_awarded CHANNEL_ORGA_LOG event env st
    = mkOutcome
        [SendMessage [CHANNEL_ORGA_LOG]
           (name +:+ " hat das Abzeichen " +:+ dq +:+ label badge +:+ dq
            +:+ " " +:+ "an " +:+ format_opt (screen_name user)
            +:+ " verliehen.")]
        (Ok tt) st).
  { unfold announce_user_badge_awarded, find_user, find_badge, bind,
      get_store, ret, getattr, send_message, emit, name. simpl.
    rewrite Huser, Hbadge. simpl.
    destruct (uba_initiator_id event) as [i|]; simpl; [|reflexivity].
    destruct (Hinit i eq_refl) as [u Hu]. rewrite Hu. simpl. reflexivity. }
  eexists. split; [exact Hrun|]. rewrite Hrun.
  split; [reflexivity|]. split; [reflexivity|]. split.
  - exists (name +:+ " hat das Abzeichen " +:+ dq),
      (dq +:+ " " +:+ "an " +:+ format_opt (screen_name user)
       +:+ " verliehen.").
    now rewrite !append_assoc.
  - exists (name +:+ " hat das Abzeichen " +:+ dq +:+ label badge +:+ dq
            +:+ " " +:+ "an "),
      " verliehen.".
    now rewrite !append_assoc.
Qed.

End IrcAnnouncersFacts.

(** C7, as the claim states it, at two events without initiator: for an
    account the database does not hold the announcer raises and sends
    nothing; for an account without screen name the text shows "None". *)
Lemma account_created_raises_or_shows_none :
  let env := Sample.env_answering 204 in
  announce_user_account_created "#orga-log" MoreSample.unknown_created env
    MoreSample.store_nameless
  = mkOutcome [] (Raise (AttributeError "screen_name"))
      MoreSample.store_nameless
  /\ announce_user_account_created "#orga-log" MoreSample.nameless_created
       env MoreSample.store_nameless
     = mkOutcome
         [SendMessage ["#orga-log"]
            ("Jemand hat das Benutzerkonto " +:+ dq +:+ "None" +:+ dq
             +:+ " angelegt.")]
         (Ok tt) MoreSample.store_nameless
  /\ contains "None"
       ("Jemand hat das Benutzerkonto " +:+ dq +:+ "None" +:+ dq
        +:+ " angelegt.").
Proof.
  cbv zeta. split; [vm_compute; reflexivity|].
  split; [vm_compute; reflexivity|].
  exists ("Jemand hat das Benutzerkonto " +:+ dq), (dq +:+ " angelegt.").
  reflexivity.
Qed.

(** C8, as the claim states it, on a registry with three enabled webhooks
    subscribed to the event: the announcer enters [call_webhook] for none
    of them and hands over a single message. *)
Lemma badge_awarded_not_one_call_per_webhook :
  let st := Sample.store [Sample.irc_orga; Sample.irc_public; Sample.discord] in
  let env := Sample.env_answering 200 in
  let tr := trace (announce_user_badge_awarded "#orga-log"
                     Sample.badge_awarded env st) in
  subscribed "user-badge-awarded" st
  = [Sample.irc_orga; Sample.irc_public; Sample.discord]
  /\ tr = [SendMessage ["#orga-log"]
             ("Jemand hat das Abzeichen " +:+ dq +:+ "Star" +:+ dq
              +:+ " an Alice verliehen.")]
  /\ ~ one_call_per_webhook (subscribed "user-badge-awarded" st) tr
  /\ length (deliveries tr) <> length (subscribed "user-badge-awarded" st).
Proof.
  assert (Hsub :
    subscribed "user-badge-awarded"
      (Sample.store [Sample.irc_orga; Sample.irc_public; Sample.discord])
    = [Sample.irc_orga; Sample.irc_public; Sample.discord])
    by (vm_compute; reflexivity).
  cbv zeta. rewrite Hsub.
  split; [reflexivity|]. split; [vm_compute; reflexivity|].
  split.
  - unfold one_call_per_webhook.
    replace (invoked _) with (@nil OutgoingWebhook)
      by (vm_compute; reflexivity).
    apply Permutation_nil_cons.
  - vm_compute. discriminate.
Qed.

(** ** Delivery failures and the admin test call *)

Lemma test_run webhook_id webhook env st :
  has_permission env "webhook.administrate" = true ->
  List.find (fun w => N.eqb (id w) webhook_id) (webhooks st) = Some webhook ->
  test webhook_id env st
  = mkOutcome
      (trace (call_webhook webhook test_text env st)
       ++ [test_flash env (result (call_webhook webhook test_text env st))])
      (Ok NoContent) st.
Proof.
  intros Hperm Hfind.
  destruct (call_webhook_run webhook test_text env st)
    as (logs & data & _ & _ & _ & _ & Hc).
  cbv beta iota zeta delta
    [test permission_required _get_webhook_or_404 find_webhook try_except
     bind ask get_store ret flash_success flash_error emit abort raise
     trace result final].
  rewrite Hperm. cbv beta iota. rewrite Hfind. cbv beta iota.
  fold test_text. rewrite !Hc.
  destruct (http env (url webhook) data); simpl; rewrite ?app_nil_r;
    reflexivity.
Qed.

(** C9, as the code has it.  [call_webhook] makes exactly one HTTP POST and
    changes nothing in the database; whatever status the response has, the
    call returns normally, without a second request; a transport failure
    of the POST is not caught and leaves [call_webhook] as an exception.
    The admin test call never raises for a webhook it found: it reports
    success after a normal return and flashes the text of the exception
    otherwise. *)
Theorem call_webhook_fire_and_forget webhook text env st :
  (exists data,
     posts (trace (call_webhook webhook text env st)) = [(url webhook, data)]
     /\ (forall status,
           http env (url webhook) data = HttpResponse status ->
           result (call_webhook webhook text env st) = Ok tt)
     /\ (forall msg,
           http env (url webhook) data = HttpFailure msg ->
           result (call_webhook webhook text env st)
           = Raise (ConnectionError msg)))
  /\ final (call_webhook webhook text env st) = st
  /\ (forall webhook_id,
        has_permission env "webhook.administrate" = true ->
        List.find (fun w => N.eqb (id w) webhook_id) (webhooks st)
        = Some webhook ->
        test webhook_id env st
        = mkOutcome
            (trace (call_webhook webhook test_text env st)
             ++ [test_flash env
                   (result (call_webhook webhook test_text env st))])
            (Ok NoContent) st).
Proof.
  split; [|split].
  - destruct (call_webhook_run webhook text env st)
      as (logs & data & _ & Hp & _ & _ & Hc).
    exists data. rewrite Hc. simpl. rewrite posts_app, Hp. simpl.
    split; [reflexivity|]. split.
    + intros status ->. reflexivity.
    + intros msg ->. reflexivity.
  - apply call_webhook_invoked.
  - intros webhook_id. apply test_run.
Qed.

(** C9, as the claim states it, on a network that is down: the failure of
    the POST comes out of [call_webhook] as an exception. *)
Lemma call_webhook_network_failure_propagates :
  let st := Sample.store [Sample.discord] in
  result (call_webhook Sample.discord "hello" Sample.env_down st)
  = Raise (ConnectionError "connection refused")
  /\ result (call_webhook Sample.discord "hello" Sample.env_down st) <> Ok tt
  /\ posts (trace (call_webhook Sample.discord "hello" Sample.env_down st))
     = [("https://hooks.example/1",
         Some {[ "content" := VStr "[X] hello" ]})].
Proof.
  cbv zeta. split; [vm_compute; reflexivity|].
  split; [vm_compute; discriminate|]. vm_compute. reflexivity.
Qed.

(** ** The webhook admin *)

Section WebhookAdminFacts.

Variables strip lstrip : string -> string.
Variable WEBHOOK_EVENT_NAMES : gset string.
Variable validate_create : CreateForm -> bool.
Variable validate_update : UpdateForm -> bool.

Lemma create_run form env st :
  has_permission env "webhook.administrate" = true ->
  validate_create form = true ->
  create strip WEBHOOK_EVENT_NAMES validate_create form env st
  = mkOutcome
      [FlashSuccess (gettext env "Webhook has been created.")]
      (Ok (RedirectTo ".index"))
      (mkStore
         (webhooks st ++
          [{| id := next_webhook_id env;
              event_selectors :=
                filter (fun event_name => cf_event form event_name = true)
                       WEBHOOK_EVENT_NAMES;
              scope := "any";
              scope_id := None;
              format := strip (cf_format form);
              text_prefix := None;
              extra_fields := ∅;
              url := strip (cf_url form);
              description := Some (strip (cf_description form));
              enabled := false |}])
         (users st) (badges st)).
Proof.
  intros Hperm Hvalid.
  unfold create, permission_required, create_outgoing_webhook, put_webhooks,
    bind, ask, get_store, ret, flash_success, emit. simpl.
  rewrite Hperm. simpl. rewrite Hvalid. simpl. reflexivity.
Qed.

Lemma find_webhook_id webhook_id registry w :
  List.find (fun x => N.eqb (id x) webhook_id) registry = Some w ->
  id w = webhook_id /\ w ∈ registry.
Proof.
  intros H. apply find_some in H as [Hin Heq].
  split; [now apply N.eqb_eq|now apply list_elem_of_In].
Qed.

Lemma update_run webhook_id form env st w0 :
  has_permission env "webhook.administrate" = true ->
  validate_update form = true ->
  List.find (fun x => N.eqb (id x) webhook_id) (webhooks st) = Some w0 ->
  update strip lstrip WEBHOOK_EVENT_NAMES validate_update webhook_id form
    env st
  = let w' :=
      updated_webhook w0
        (filter (fun event_name => uf_event form event_name = true)
                WEBHOOK_EVENT_NAMES)
        (strip (uf_format form)) (strip (uf_url form)) (uf_enabled form)
        (Some (lstrip (uf_text_prefix form)))
        (Some (strip (uf_description form))) in
    mkOutcome
      [FlashSuccess (gettext env "Webhook has been updated.")]
      (Ok (RedirectTo ".index"))
      (mkStore
         (map (fun x => if N.eqb (id x) webhook_id then w' else x)
              (webhooks st))
         (users st) (badges st)).
Proof.
  intros Hperm Hvalid Hfind.
  destruct (find_webhook_id _ _ _ Hfind) as [Hid _].
  unfold update, permission_required, _get_webhook_or_404,
    update_outgoing_webhook, find_webhook, put_webhooks,
    bind, ask, get_store, ret, flash_success, emit. simpl.
  rewrite Hperm. simpl. rewrite Hfind. simpl. rewrite Hvalid. simpl.
  rewrite Hid, Hfind. simpl. reflexivity.
Qed.

Lemma update_sets webhook_id form env st w0 x :
  has_permission env "webhook.administrate" = true ->
  validate_update form = true ->
  List.find (fun x => N.eqb (id x) webhook_id) (webhooks st) = Some w0 ->
  x ∈ webhooks (final (update strip lstrip WEBHOOK_EVENT_NAMES
                         validate_update webhook_id form env st)) ->
  id x = webhook_id ->
  enabled x = uf_enabled form
  /\ text_prefix x = Some (lstrip (uf_text_prefix form)).
Proof.
  intros Hperm Hvalid Hfind.
  rewrite (update_run _ _ _ _ _ Hperm Hvalid Hfind). simpl.
  intros Hin Hid. apply list_elem_of_In, in_map_iff in Hin as (y & Hy & _).
  destruct (N.eqb (id y) webhook_id) eqn:Heq.
  - subst x. now split.
  - subst x. apply N.eqb_neq in Heq. contradiction.
Qed.

Lemma test_keeps_store webhook_id env st :
  final (test webhook_id env st) = st.
Proof.
  destruct (has_permission env "webhook.administrate") eqn:Hperm.
  - destruct (List.find (fun w => N.eqb (id w) webhook_id) (webhooks st))
      as [w|] eqn:Hfind.
    + now rewrite (test_run _ _ _ _ Hperm Hfind).
    + cbv beta iota zeta delta
        [test permission_required _get_webhook_or_404 find_webhook
         bind ask get_store ret abort raise trace result final].
      rewrite Hperm. cbv beta iota. now rewrite Hfind.
  - cbv beta iota zeta delta
      [test permission_required bind ask ret abort raise trace result final].
    now rewrite Hperm.
Qed.

Lemma test_invokes webhook_id webhook env st :
  has_permission env "webhook.administrate" = true ->
  List.find (fun w => N.eqb (id w) webhook_id) (webhooks st) = Some webhook ->
  invoked (trace (test webhook_id env st)) = [webhook].
Proof.
  intros Hperm Hfind. rewrite (test_run _ _ _ _ Hperm Hfind). cbn [trace].
  rewrite invoked_app, (proj1 (call_webhook_invoked webhook test_text env st)).
  now destruct (result (call_webhook webhook test_text env st)).
Qed.

(** C10, as the code has it.  A valid create form, whatever it holds,
    stores one new webhook next to the unchanged old ones; the new webhook
    is disabled and has no text prefix; on the resulting registry no
    announcer enters [call_webhook] for it, whatever the event; the test
    call leaves the registry as it is, but does call the new webhook,
    disabled as it is; and an update rewrites exactly the records of the
    given id, which stay in the registry with the enabled flag and the
    (left-stripped) text prefix of the update form, every other record and
    the order being kept. *)
Theorem created_webhook_starts_disabled form env st :
  has_permission env "webhook.administrate" = true ->
  validate_create form = true ->
  exists w,
    let st' :=
      final (create strip WEBHOOK_EVENT_NAMES validate_create form env st) in
    st' = mkStore (webhooks st ++ [w]) (users st) (badges st)
    /\ enabled w = false
    /\ text_prefix w = None
    /\ (forall get_name_for_event event text a_scope a_scope_id env',
          (w ∉ invoked (trace (announce_discord get_name_for_event event
                                 text env' st')))
          /\ (w ∉ invoked (trace (announce_discord_scoped get_name_for_event
                                    event a_scope a_scope_id text env' st')))
          /\ (w ∉ invoked (trace (announce_irc get_name_for_event event
                                    text env' st'))))
    /\ (forall webhook_id env', final (test webhook_id env' st') = st')
    /\ (forall env',
          has_permission env' "webhook.administrate" = true ->
          List.find (fun y => N.eqb (id y) (id w)) (webhooks st') = Some w ->
          invoked (trace (test (id w) env' st')) = [w])
    /\ (forall webhook_id update_form env' w0,
          has_permission env' "webhook.administrate" = true ->
          validate_update update_form = true ->
          List.find (fun y => N.eqb (id y) webhook_id) (webhooks st')
          = Some w0 ->
          exists w',
            final (update strip lstrip WEBHOOK_EVENT_NAMES validate_update
                     webhook_id update_form env' st')
            = mkStore
                (map (fun x => if N.eqb (id x) webhook_id then w' else x)
                     (webhooks st'))
                (users st') (badges st')
            /\ w' ∈ webhooks (final (update strip lstrip WEBHOOK_EVENT_NAMES
                                       validate_update webhook_id update_form
                                       env' st'))
            /\ id w' = webhook_id
            /\ enabled w' = uf_enabled update_form
            /\ text_prefix w' = Some (lstrip (uf_text_prefix update_form))
            /\ forall x,
                 x ∈ webhooks (final (update strip lstrip WEBHOOK_EVENT_NAMES
                                        validate_update webhook_id
                                        update_form env' st')) ->
                 id x = webhook_id -> x = w').
Proof.
  intros Hperm Hvalid. rewrite (create_run _ _ _ Hperm Hvalid).
  cbv zeta. cbn [final].
  eexists. split; [reflexivity|]. split; [reflexivity|].
  split; [reflexivity|]. split; [|split; [|split]].
  - intros gne event text a_scope a_scope_id env'. repeat split; intros Hin.
    + apply announce_discord_invoked, enabled_outgoing_webhooks_elem in Hin.
      destruct Hin as (_ & He & _). discriminate He.
    + apply announce_discord_scoped_invoked in Hin as [Hin _].
      apply enabled_outgoing_webhooks_elem in Hin.
      destruct Hin as (_ & He & _). discriminate He.
    + apply announce_irc_invoked, enabled_outgoing_webhooks_elem in Hin.
      destruct Hin as (_ & He & _). discriminate He.
  - intros. apply test_keeps_store.
  - intros env' Hp Hf. now apply test_invokes.
  - intros webhook_id update_form env' w0 Hp Hv Hf.
    destruct (find_webhook_id _ _ _ Hf) as [Hid Hin0].
    rewrite (update_run _ _ _ _ _ Hp Hv Hf). cbv zeta. cbn [final webhooks].
    eexists. split; [reflexivity|]. split; [|split; [|split; [|split]]].
    + apply list_elem_of_In, in_map_iff. exists w0.
      split; [|now apply list_elem_of_In].
      apply N.eqb_eq in Hid. now rewrite Hid.
    + exact Hid.
    + reflexivity.
    + reflexivity.
    + intros x Hin Hx.
      apply list_elem_of_In, in_map_iff in Hin as (y & Hy & _).
      destruct (N.eqb (id y) webhook_id) eqn:Heq; [now subst x|].
      subst x. apply N.eqb_neq in Heq. contradiction.
Qed.

End WebhookAdminFacts.

(** C10, as the claim states it, at the sample create form: the webhook
    just created is disabled, and the test call for its id enters
    [call_webhook] for it and sends the test text to its URL. *)
Lemma created_webhook_fires_on_test :
  let env := Sample.env_answering 204 in
  let st' :=
    final (create Sample.strip Sample.event_names (fun _ => true)
             Sample.create_form env (Sample.store [Sample.discord])) in
  webhooks st' = [Sample.discord; MoreSample.created]
  /\ enabled MoreSample.created = false
  /\ invoked (trace (test 100%N env st')) = [MoreSample.created]
  /\ posts (trace (test 100%N env st'))
     = [("https://hooks.example/new",
         Some {[ "content" := VStr test_text ]})].
Proof.
  cbv zeta. split; [vm_compute; reflexivity|]. split; [reflexivity|].
  split; vm_compute; reflexivity.
Qed.

(** ** The properties at sample inputs *)

Lemma dispatch_only_enabled_subscribed_witness :
  let st :=
    Sample.store [Sample.discord; Sample.discord_disabled; Sample.irc_orga] in
  let event := EvUserBadgeAwarded Sample.badge_awarded in
  Sample.discord
  ∈ invoked (trace (announce_discord Sample.event_name event "hi"
                      (Sample.env_answering 204) st))
  /\ Sample.discord ∈ webhooks st
  /\ enabled Sample.discord = true
  /\ Sample.event_name event ∈ event_selectors Sample.discord.
Proof.
  intros st event.
  assert (H : Sample.discord
              ∈ invoked (trace (announce_discord Sample.event_name event "hi"
                                  (Sample.env_answering 204) st))).
  { vm_compute. left. }
  split; [exact H|].
  exact (dispatch_only_enabled_subscribed Sample.event_name event "hi"
           "any" "" (Sample.env_answering 204) st Sample.discord
           (or_introl H)).
Defined.

Lemma scoped_dispatch_requires_scope_match_witness :
  let st := Sample.store [Sample.discord; Sample.discord_board] in
  let event := EvUserBadgeAwarded Sample.badge_awarded in
  Sample.discord_board
  ∈ invoked (trace (announce_discord_scoped Sample.event_name event
                      "board" "forum" "hi" (Sample.env_answering 204) st))
  /\ scope Sample.discord_board = "board"
  /\ scope_id Sample.discord_board = Some "forum".
Proof.
  intros st event.
  assert (H : Sample.discord_board
              ∈ invoked (trace (announce_discord_scoped Sample.event_name
                                  event "board" "forum" "hi"
                                  (Sample.env_answering 204) st))).
  { vm_compute. left. }
  split; [exact H|].
  exact (proj2 (scoped_dispatch_requires_scope_match Sample.event_name event
                  "board" "forum" "hi" (Sample.env_answering 204) st
                  Sample.discord_board) H).
Defined.

Lemma call_webhook_prepends_prefix_witness :
  exists payload : Payload,
    posts (trace (call_webhook Sample.discord "hello"
                    (Sample.env_answering 204) (Sample.store [])))
    = [(url Sample.discord, Some payload)]
    /\ payload_text payload = Some (VStr "[X] hello").
Proof.
  destruct (call_webhook_prepends_prefix Sample.discord "hello"
              (Sample.env_answering 204) (Sample.store [])
              (or_introl eq_refl))
    as (payload & Hposts & _ & _ & Hexample).
  exists payload. split; [exact Hposts|].
  exact (Hexample eq_refl eq_refl).
Defined.

Lemma assemble_request_data_exact_witness :
  (exists payload : Payload,
     result (_assemble_request_data Sample.discord "hello"
               (Sample.env_answering 204) (Sample.store []))
     = Ok (Some payload)
     /\ forall k : string,
          payload !! k
          = if decide (k = "content") then Some (VStr "hello") else None)
  /\ (exists payload : Payload,
        result (_assemble_request_data Sample.irc_orga "hello"
                  (Sample.env_answering 204) (Sample.store []))
        = Ok (Some payload)
        /\ payload !! "channel" = Some (VStr "#orga")
        /\ payload !! "text" = Some (VStr "hello")
        /\ payload !! "content" = None).
Proof.
  split.
  - exact (proj1 (assemble_request_data_exact Sample.discord "hello"
                    (Sample.env_answering 204) (Sample.store [])) eq_refl).
  - destruct (proj2 (assemble_request_data_exact Sample.irc_orga "hello"
                       (Sample.env_answering 204) (Sample.store [])) eq_refl)
      as (payload & Hres & Hkeys).
    exists payload. split; [exact Hres|].
    rewrite !Hkeys. repeat split; reflexivity.
Defined.

Lemma get_webhooks_for_irc_sorted_witness :
  let st :=
    Sample.store [Sample.irc_orga; Sample.discord; Sample.irc_public] in
  let event := EvUserBadgeAwarded Sample.badge_awarded in
  exists ws,
    result (get_webhooks_for_irc Sample.event_name event
              (Sample.env_answering 204) st) = Ok ws
    /\ ws ≡ₚ [Sample.irc_orga; Sample.irc_public]
    /\ StronglySorted channel_le ws.
Proof.
  intros st event.
  pose proof (get_webhooks_for_irc_sorted Sample.event_name event
                (Sample.env_answering 204) st) as H.
  assert (Hfound :
    enabled_outgoing_webhooks (Sample.event_name event) "weitersager"
      (webhooks st) = [Sample.irc_orga; Sample.irc_public])
    by (vm_compute; reflexivity).
  cbv zeta in H. rewrite Hfound in H. destruct H as (_ & Hsorted & Htotal).
  destruct Htotal as [ws Hws].
  { repeat constructor; eexists; reflexivity. }
  exists ws. split; [exact Hws|].
  destruct (Hsorted ws Hws) as (Hperm & Hss & _). now split.
Defined.

Lemma announce_user_account_created_fallback_witness :
  exists text,
    announce_user_account_created "#orga-log" Sample.account_created
      (Sample.env_answering 204) (Sample.store [])
    = mkOutcome [SendMessage ["#orga-log"] text] (Ok tt) (Sample.store [])
    /\ text = "Jemand hat das Benutzerkonto " +:+ dq
              +:+ format_opt (screen_name Sample.alice) +:+ dq +:+ " angelegt."
    /\ String.prefix "Jemand " text = true
    /\ String.prefix "None" text = false
    /\ (contains "None" text ->
        contains "None" (format_opt (screen_name Sample.alice)))
    /\ get_screen_name_or_fallback None = "Jemand".
Proof.
  apply (announce_user_account_created_fallback "#orga-log"
           Sample.account_created (Sample.env_answering 204)
           (Sample.store []) Sample.alice).
  - reflexivity.
  - vm_compute. reflexivity.
Defined.

Lemma announce_user_badge_awarded_single_message_witness :
  let st := Sample.store [Sample.irc_orga; Sample.irc_public; Sample.discord] in
  exists text,
    announce_user_badge_awarded "#orga-log" Sample.badge_awarded
      (Sample.env_answering 204) st
    = mkOutcome [SendMessage ["#orga-log"] text] (Ok tt) st
    /\ deliveries (trace (announce_user_badge_awarded "#orga-log"
                            Sample.badge_awarded (Sample.env_answering 204) st))
       = [SendMessage ["#orga-log"] text]
    /\ invoked (trace (announce_user_badge_awarded "#orga-log"
                         Sample.badge_awarded (Sample.env_answering 204) st))
       = []
    /\ contains (label Sample.star) text
    /\ contains (format_opt (screen_name Sample.alice)) text.
Proof.
  intros st.
  apply (announce_user_badge_awarded_single_message "#orga-log"
           Sample.badge_awarded (Sample.env_answering 204) st
           Sample.alice Sample.star).
  - vm_compute. reflexivity.
  - vm_compute. reflexivity.
  - intros initiator_id H. discriminate H.
Defined.

Lemma call_webhook_fire_and_forget_witness :
  let st := Sample.store [Sample.discord] in
  test 1%N Sample.env_down st
  = mkOutcome
      (trace (call_webhook Sample.discord test_text Sample.env_down st)
       ++ [test_flash Sample.env_down
             (Raise (ConnectionError "connection refused"))])
      (Ok NoContent) st.
Proof.
  intros st.
  exact (proj2 (proj2 (call_webhook_fire_and_forget Sample.discord "hello"
                         Sample.env_down st))
           1%N eq_refl eq_refl).
Defined.

Lemma created_webhook_starts_disabled_witness :
  let st' :=
    final (create Sample.strip Sample.event_names (fun _ => true)
             Sample.create_form (Sample.env_answering 204)
             (Sample.store [Sample.discord])) in
  exists w,
    st' = Sample.store [Sample.discord; w]
    /\ enabled w = false
    /\ text_prefix w = None
    /\ forall x,
         x ∈ webhooks (final (update Sample.strip Sample.lstrip
                                Sample.event_names (fun _ => true) 100%N
                                Sample.update_form (Sample.env_answering 204)
                                st')) ->
         id x = 100%N ->
         enabled x = true /\ text_prefix x = Some "[X] ".
Proof.
  intros st'.
  destruct (created_webhook_starts_disabled Sample.strip Sample.lstrip
              Sample.event_names (fun _ => true) (fun _ => true)
              Sample.create_form (Sample.env_answering 204)
              (Sample.store [Sample.discord]) eq_refl eq_refl)
    as (w & Hstore & Henabled & Hprefix & _ & _ & _ & Hupdate).
  exists w. split; [exact Hstore|]. split; [exact Henabled|].
  split; [exact Hprefix|].
  intros x Hin Hid.
  assert (Hfind :
    List.find (fun y => N.eqb (id y) 100%N) (webhooks st')
    = Some MoreSample.created) by (vm_compute; reflexivity).
  destruct (Hupdate 100%N Sample.update_form (Sample.env_answering 204)
              MoreSample.created eq_refl eq_refl Hfind)
    as (w' & _ & _ & _ & He & Hp & Hall).
  rewrite (Hall x Hin Hid). split; [exact He|exact Hp].
Defined.

(** * Further properties of the code *)

(** ** The dispatcher *)

Lemma warnings_app tr1 tr2 : warnings (tr1 ++ tr2) = warnings tr1 ++ warnings tr2.
Proof.
  induction tr1 as [|e tr1 IH]; [reflexivity|].
  destruct e; simpl; now rewrite IH.
Qed.

Lemma flashes_app tr1 tr2 : flashes (tr1 ++ tr2) = flashes tr1 ++ flashes tr2.
Proof.
  induction tr1 as [|e tr1 IH]; [reflexivity|].
  destruct e; simpl; now rewrite IH.
Qed.

Lemma truthy_channel_false (w : OutgoingWebhook) :
  truthy (dict_get (extra_fields w) "channel") = false <-> no_channel w.
Proof.
  unfold no_channel, dict_get.
  destruct (extra_fields w !! "channel") as [[|[|c s]]|]; simpl;
    split; intros H; try reflexivity; try discriminate; auto.
  destruct H as [H|[H|H]]; discriminate.
Qed.

(** X1.  [call_webhook] logs "No channel specified with IRC webhook." exactly
    when the webhook has the format "weitersager" and its channel entry is
    missing, [None] or the empty string; it logs nothing else, and never
    more than this one warning. *)
Theorem call_webhook_warns_iff_no_channel webhook text env st :
  ("No channel specified with IRC webhook."
   ∈ warnings (trace (call_webhook webhook text env st))
   <-> format webhook = "weitersager" /\ no_channel webhook)
  /\ (forall msg,
        msg ∈ warnings (trace (call_webhook webhook text env st)) ->
        msg = "No channel specified with IRC webhook.")
  /\ length (warnings (trace (call_webhook webhook text env st))) <= 1.
Proof.
  destruct (call_webhook_run webhook text env st)
    as (logs & data & Ha & _ & _ & _ & Hc).
  rewrite Hc. simpl. rewrite warnings_app. simpl. rewrite app_nil_r.
  destruct (String.eqb_spec (format webhook) "discord") as [Hd|Hd].
  { rewrite (assemble_discord _ _ _ _ Hd) in Ha. injection Ha as <- _.
    simpl. split; [|split; [|lia]].
    - split; [intros H; inversion H|]. intros [Hw _]. congruence.
    - intros msg H. inversion H. }
  destruct (String.eqb_spec (format webhook) "weitersager") as [Hw|Hw].
  2: { rewrite (assemble_other_format _ _ _ _ Hd Hw) in Ha.
       injection Ha as <- _. simpl. split; [|split; [|lia]].
       - split; [intros H; inversion H|]. now intros [Hw' _].
       - intros msg H. inversion H. }
  rewrite (assemble_weitersager _ _ _ _ Hw) in Ha. injection Ha as <- _.
  destruct (truthy (dict_get (extra_fields webhook) "channel")) eqn:Ht; simpl.
  - split; [|split; [|lia]].
    + split; [intros H; inversion H|]. intros [_ Hn].
      apply truthy_channel_false in Hn. congruence.
    + intros msg H. inversion H.
  - split; [|split; [|lia]].
    + split; [|intros _; left]. intros _. split; [assumption|].
      now apply truthy_channel_false.
    + intros msg H. inversion H as [|? ? ? H']; subst; [reflexivity|].
      inversion H'.
Qed.

(** X2.  For a webhook whose format is neither "discord" nor "weitersager"
    [call_webhook] still makes its one request to the webhook's URL, but
    without a JSON body: the text and the prefix reach nobody, and nothing
    is logged. *)
Theorem call_webhook_unknown_format_posts_no_body webhook text env st :
  format webhook <> "discord" ->
  format webhook <> "weitersager" ->
  trace (call_webhook webhook text env st)
  = [Invoke webhook text; HttpPost (url webhook) None]
  /\ final (call_webhook webhook text env st) = st.
Proof.
  intros Hd Hw.
  destruct (call_webhook_run webhook text env st)
    as (logs & data & Ha & _ & _ & _ & Hc).
  rewrite (assemble_other_format _ _ _ _ Hd Hw) in Ha.
  injection Ha as <- <-. now rewrite Hc.
Qed.

Lemma call_webhook_unknown_format_posts_no_body_witness :
  trace (call_webhook MoreSample.slack "hello" (Sample.env_answering 204)
           (Sample.store []))
  = [Invoke MoreSample.slack "hello";
     HttpPost (url MoreSample.slack) None]
  /\ final (call_webhook MoreSample.slack "hello" (Sample.env_answering 204)
              (Sample.store []))
     = Sample.store [].
Proof.
  apply (call_webhook_unknown_format_posts_no_body MoreSample.slack "hello"
           (Sample.env_answering 204) (Sample.store []));
    intros H; discriminate H.
Defined.

(** X3.  [get_screen_name_or_fallback] never returns the empty string: a
    non-empty name comes back as it is, a missing or empty one becomes
    "Jemand"; applying it to its own result changes nothing. *)
Theorem get_screen_name_or_fallback_never_empty (name : option string) :
  get_screen_name_or_fallback name <> ""
  /\ (forall s, name = Some s -> s <> "" ->
      get_screen_name_or_fallback name = s)
  /\ (name = None \/ name = Some "" ->
      get_screen_name_or_fallback name = "Jemand")
  /\ get_screen_name_or_fallback (Some (get_screen_name_or_fallback name))
     = get_screen_name_or_fallback name.
Proof.
  split; [|split; [|split]].
  - now destruct name as [[|c r]|].
  - intros s -> Hs. destruct s; [congruence|reflexivity].
  - intros [->| ->]; reflexivity.
  - now destruct name as [[|c r]|].
Qed.

(** ** The sort of [get_webhooks_for_irc] on keys that are not strings *)

Section ListSortErrors.

Context {A : Type}.

Lemma lt_none (u v : value) :
  u = VNone \/ v = VNone -> lt u v = Raise TypeError.
Proof. intros [-> | ->]; [reflexivity|now destruct u]. Qed.

Lemma insert_keyed_raise (x : value * A) l e :
  insert_keyed x l = Raise e -> e = TypeError.
Proof.
  induction l as [|y l IH]; simpl; [discriminate|].
  destruct (lt (fst y) (fst x)) as [[|]|e'] eqn:Hlt; simpl.
  - destruct (insert_keyed x l) as [r|e'']; simpl; [discriminate|].
    intros [= <-]. now apply IH.
  - discriminate.
  - intros [= <-]. destruct (fst y), (fst x); simpl in Hlt; congruence.
Qed.

Lemma sort_keyed_raise (l : list (value * A)) e :
  sort_keyed l = Raise e -> e = TypeError.
Proof.
  revert e. induction l as [|x l IH]; simpl; intros e; [discriminate|].
  destruct (sort_keyed l) as [s|e'] eqn:Hs; simpl.
  - apply insert_keyed_raise.
  - intros [= <-]. now apply IH.
Qed.

(** Two or more keys, one of them [None]: a comparison meets it. *)
Lemma sort_keyed_type_error (l : list (value * A)) :
  2 <= length l ->
  Exists (fun p => fst p = VNone) l ->
  sort_keyed l = Raise TypeError.
Proof.
  induction l as [|x l IH]; simpl; intros Hlen Hex; [lia|].
  destruct (sort_keyed l) as [s|e] eqn:Hs; simpl.
  - pose proof (sort_keyed_perm _ _ Hs) as Hperm.
    destruct s as [|y s].
    { apply Permutation_length in Hperm. simpl in Hperm. lia. }
    simpl. rewrite lt_none; [reflexivity|].
    inversion Hex as [? ? Hx|? ? Hl]; subst; [now right|].
    destruct l as [|z [|z' l']].
    + inversion Hl.
    + apply Permutation_length in Hperm as Hlen'. destruct s; [|discriminate].
      apply Permutation_length_1 in Hperm. subst y.
      left. inversion Hl as [? ? Hz|? ? Hnil]; subst; [assumption|].
      inversion Hnil.
    + exfalso.
      assert (H : Ok (y :: s) = Raise TypeError)
        by (apply IH; [simpl; lia|assumption]).
      discriminate H.
  - f_equal. now apply (sort_keyed_raise l).
Qed.

Lemma list_sort_type_error (key : A -> Res value) (l : list A) a :
  2 <= length l ->
  Forall (fun b => exists k, key b = Ok k) l ->
  a ∈ l -> key a = Ok VNone ->
  list_sort key l = Raise TypeError.
Proof.
  intros Hlen Hall Hin Ha. unfold list_sort.
  destruct (compute_keys_total key l Hall) as [ks Hks]. rewrite Hks. simpl.
  destruct (compute_keys_spec key l ks Hks) as [Hm Hk].
  rewrite sort_keyed_type_error; [reflexivity| |].
  - rewrite <- Hm in Hlen. now rewrite length_map in Hlen.
  - rewrite <- Hm in Hin. apply list_elem_of_fmap in Hin as (p & -> & Hp).
    apply Exists_exists. exists p. split; [assumption|].
    rewrite Forall_forall in Hk. specialize (Hk p Hp).
    unfold keyed_by in Hk. congruence.
Qed.

End ListSortErrors.

Section HelpersMoreFacts.

Variable get_name_for_event : Event -> string.

(** X4.  When two or more enabled IRC webhooks are subscribed to the event,
    each with a channel entry, and the channel of one of them is [None],
    [get_webhooks_for_irc] raises [TypeError] (the sort cannot compare
    [None]) and returns no list; nothing is logged. *)
Theorem get_webhooks_for_irc_none_channel_raises event env st w :
  let found :=
    enabled_outgoing_webhooks (get_name_for_event event) "weitersager"
      (webhooks st) in
  2 <= length found ->
  Forall (fun x => is_Some (extra_fields x !! "channel")) found ->
  w ∈ found ->
  extra_fields w !! "channel" = Some VNone ->
  get_webhooks_for_irc get_name_for_event event env st
  = mkOutcome [] (Raise TypeError) st.
Proof.
  intros found Hlen Hall Hin Hnone. rewrite get_webhooks_for_irc_run.
  fold found. destruct found as [|w0 found'] eqn:Hfound; [inversion Hin|].
  f_equal. apply (list_sort_type_error _ _ w); auto.
  - eapply Forall_impl; [exact Hall|]. intros x [k Hk].
    exists k. unfold dict_getitem. now rewrite Hk.
  - unfold dict_getitem. now rewrite Hnone.
Qed.

(** X5.  A single enabled IRC webhook subscribed to the event is returned
    as it is, whatever its channel entry holds ([None] too): with one
    element the sort compares nothing.  No warning is logged. *)
Theorem get_webhooks_for_irc_single_webhook event env st w :
  enabled_outgoing_webhooks (get_name_for_event event) "weitersager"
    (webhooks st) = [w] ->
  is_Some (extra_fields w !! "channel") ->
  get_webhooks_for_irc get_name_for_event event env st
  = mkOutcome [] (Ok [w]) st.
Proof.
  intros Hfound [k Hk]. rewrite get_webhooks_for_irc_run, Hfound.
  f_equal. unfold list_sort, dict_getitem. simpl. now rewrite Hk.
Qed.

(** X6.  When any enabled IRC webhook subscribed to the event has no
    ["channel"] entry, [get_webhooks_for_irc] raises [KeyError('channel')],
    however many webhooks were found and whatever the other entries hold;
    no list is returned and nothing is logged. *)
Theorem get_webhooks_for_irc_missing_channel_raises event env st w :
  w ∈ enabled_outgoing_webhooks (get_name_for_event event) "weitersager"
        (webhooks st) ->
  extra_fields w !! "channel" = None ->
  get_webhooks_for_irc get_name_for_event event env st
  = mkOutcome [] (Raise (KeyError "channel")) st.
Proof.
  intros Hin Hnone. rewrite get_webhooks_for_irc_run.
  destruct (enabled_outgoing_webhooks _ _ _) as [|w0 found] eqn:Hfound;
    [now inversion Hin|].
  f_equal. unfold list_sort.
  rewrite (compute_keys_raise _ (w0 :: found) w (KeyError "channel")); auto.
  - intros b _. unfold dict_getitem.
    destruct (extra_fields b !! "channel"); eauto.
  - unfold dict_getitem. now rewrite Hnone.
Qed.

End HelpersMoreFacts.

Lemma get_webhooks_for_irc_none_channel_raises_witness :
  get_webhooks_for_irc Sample.event_name
    (EvUserBadgeAwarded Sample.badge_awarded) (Sample.env_answering 204)
    (Sample.store [Sample.irc_orga; MoreSample.irc_none])
  = mkOutcome [] (Raise TypeError)
      (Sample.store [Sample.irc_orga; MoreSample.irc_none]).
Proof.
  apply (get_webhooks_for_irc_none_channel_raises Sample.event_name
           (EvUserBadgeAwarded Sample.badge_awarded) (Sample.env_answering 204)
           (Sample.store [Sample.irc_orga; MoreSample.irc_none])
           MoreSample.irc_none).
  - vm_compute. lia.
  - assert (H : enabled_outgoing_webhooks
                  (Sample.event_name (EvUserBadgeAwarded Sample.badge_awarded))
                  "weitersager"
                  (webhooks (Sample.store
                               [Sample.irc_orga; MoreSample.irc_none]))
                = [Sample.irc_orga; MoreSample.irc_none])
      by (vm_compute; reflexivity).
    rewrite H. repeat constructor; eexists; reflexivity.
  - vm_compute. right. left.
  - reflexivity.
Defined.

Lemma get_webhooks_for_irc_single_webhook_witness :
  get_webhooks_for_irc Sample.event_name
    (EvUserBadgeAwarded Sample.badge_awarded) (Sample.env_answering 204)
    (Sample.store [Sample.discord; MoreSample.irc_none])
  = mkOutcome [] (Ok [MoreSample.irc_none])
      (Sample.store [Sample.discord; MoreSample.irc_none]).
Proof.
  apply (get_webhooks_for_irc_single_webhook Sample.event_name
           (EvUserBadgeAwarded Sample.badge_awarded) (Sample.env_answering 204)
           (Sample.store [Sample.discord; MoreSample.irc_none])
           MoreSample.irc_none).
  - vm_compute. reflexivity.
  - eexists. reflexivity.
Defined.

Lemma get_webhooks_for_irc_missing_channel_raises_witness :
  get_webhooks_for_irc Sample.event_name
    (EvUserBadgeAwarded Sample.badge_awarded) (Sample.env_answering 204)
    (Sample.store [Sample.irc_orga; Sample.irc_no_channel; MoreSample.irc_none])
  = mkOutcome [] (Raise (KeyError "channel"))
      (Sample.store
         [Sample.irc_orga; Sample.irc_no_channel; MoreSample.irc_none]).
Proof.
  apply (get_webhooks_for_irc_missing_channel_raises Sample.event_name
           (EvUserBadgeAwarded Sample.badge_awarded) (Sample.env_answering 204)
           (Sample.store
              [Sample.irc_orga; Sample.irc_no_channel; MoreSample.irc_none])
           Sample.irc_no_channel).
  - vm_compute. right. left.
  - reflexivity.
Defined.

(** ** The sort of the index view *)

Section SortByKey.

Context {A K : Type} `{!EqDecision K}.
Variable ltb : K -> K -> bool.
Variable key : A -> K.
Hypothesis ltb_irrefl : forall k, ltb k k = false.

(** [a] may stand before [b]: [b]'s key is not smaller. *)
Let before (a b : A) : Prop := ltb (key b) (key a) = false.

Lemma insert_by_key_perm x l : insert_by_key ltb key x l ≡ₚ x :: l.
Proof.
  induction l as [|y l IH]; simpl; [reflexivity|].
  destruct (ltb (key y) (key x)); [|reflexivity].
  rewrite IH. apply Permutation_swap.
Qed.

Lemma sort_by_key_perm l : sort_by_key ltb key l ≡ₚ l.
Proof.
  induction l as [|x l IH]; simpl; [reflexivity|].
  now rewrite insert_by_key_perm, IH.
Qed.

Lemma insert_by_key_stable (k : K) x l :
  filter (fun a => key a = k) (insert_by_key ltb key x l)
  = filter (fun a => key a = k) (x :: l).
Proof.
  induction l as [|y l IH]; simpl; [reflexivity|].
  destruct (ltb (key y) (key x)) eqn:Hlt; [|reflexivity].
  rewrite !filter_cons, IH, !filter_cons.
  destruct (decide (key y = k)) as [Hy|Hy];
    destruct (decide (key x = k)) as [Hx|Hx]; try reflexivity.
  exfalso. rewrite Hy, <- Hx, ltb_irrefl in Hlt. discriminate Hlt.
Qed.

Lemma sort_by_key_stable (k : K) l :
  filter (fun a => key a = k) (sort_by_key ltb key l)
  = filter (fun a => key a = k) l.
Proof.
  induction l as [|x l IH]; simpl; [reflexivity|].
  rewrite insert_by_key_stable, !filter_cons. now rewrite IH.
Qed.

Hypothesis ltb_asym : forall j k, ltb j k = true -> ltb k j = false.

Lemma insert_by_key_hd x y l :
  before y x -> HdRel before y l -> HdRel before y (insert_by_key ltb key x l).
Proof.
  destruct l as [|z l]; simpl; intros Hx Hl; [now constructor|].
  destruct (ltb (key z) (key x)); constructor; [|assumption].
  now inversion Hl.
Qed.

Lemma insert_by_key_sorted x l :
  Sorted before l -> Sorted before (insert_by_key ltb key x l).
Proof.
  induction l as [|y l IH]; simpl; intros Hs; [repeat constructor|].
  inversion Hs as [|? ? Hs' Hhd]; subst.
  destruct (ltb (key y) (key x)) eqn:Hlt.
  - constructor; [now apply IH|].
    apply insert_by_key_hd; [|assumption]. now apply ltb_asym.
  - constructor; [assumption|]. now constructor.
Qed.

Lemma sort_by_key_sorted l : Sorted before (sort_by_key ltb key l).
Proof.
  induction l as [|x l IH]; simpl; [constructor|].
  now apply insert_by_key_sorted.
Qed.

End SortByKey.

Lemma string_leb_ltb_false (a b : string) :
  String.leb a b = true -> String.ltb b a = false.
Proof.
  unfold String.ltb, String.leb. rewrite (String.compare_antisym b a).
  now destruct (String.compare a b).
Qed.

Lemma string_leb_refl (a : string) : String.leb a a = true.
Proof. unfold String.leb. now rewrite string_compare_refl. Qed.

Lemma tuple_lt_irrefl (k : bool * string) : tuple_lt k k = false.
Proof.
  unfold tuple_lt. now rewrite Bool.eqb_reflx, String.eqb_refl.
Qed.

Lemma tuple_lt_false_le (a b : bool * string) :
  tuple_lt b a = false <-> index_le a b.
Proof.
  unfold tuple_lt, index_le. destruct a as [fa sa], b as [fb sb]. simpl.
  destruct fa, fb; simpl.
  - destruct (String.eqb_spec sb sa) as [->|Hne].
    + split; [|reflexivity]. intros _. left. split; [reflexivity|].
      apply string_leb_refl.
    + split.
      * intros H. left. split; [reflexivity|]. now apply string_ltb_false_leb.
      * intros [[_ H]|[H _]]; [now apply string_leb_ltb_false|discriminate].
  - split; [discriminate|]. intros [[H _]|[H _]]; discriminate.
  - split; [|reflexivity]. intros _. now right.
  - destruct (String.eqb_spec sb sa) as [->|Hne].
    + split; [|reflexivity]. intros _. left. split; [reflexivity|].
      apply string_leb_refl.
    + split.
      * intros H. left. split; [reflexivity|]. now apply string_ltb_false_leb.
      * intros [[_ H]|[_ H]]; [now apply string_leb_ltb_false|discriminate].
Qed.

Lemma tuple_lt_asym (a b : bool * string) :
  tuple_lt a b = true -> tuple_lt b a = false.
Proof.
  intros H. apply tuple_lt_false_le.
  unfold tuple_lt in H. unfold index_le.
  destruct a as [fa sa], b as [fb sb]. simpl in *.
  destruct fa, fb; simpl in H; try discriminate; [| now right |].
  - left. split; [reflexivity|].
    destruct (String.eqb sa sb); [discriminate|]. now apply string_ltb_leb.
  - left. split; [reflexivity|].
    destruct (String.eqb sa sb); [discriminate|]. now apply string_ltb_leb.
Qed.

Lemma index_le_trans (a b c : bool * string) :
  index_le a b -> index_le b c -> index_le a c.
Proof.
  unfold index_le. intros [[Hab Hl]|[Ha Hb]] [[Hbc Hl']|[Hb' Hc]].
  - left. split; [congruence|]. now apply (string_leb_trans _ (snd b)).
  - right. split; congruence.
  - right. split; congruence.
  - congruence.
Qed.

(** In a list ordered so that [P] is passed on to everything later, the
    elements without [P] come first. *)
Lemma sorted_partition {A} (R : A -> A -> Prop) (P : A -> Prop)
    `{!forall a, Decision (P a)} (l : list A) :
  (forall a b, R a b -> P a -> P b) ->
  StronglySorted R l ->
  l = filter (fun a => ~ P a) l ++ filter P l.
Proof.
  intros Hpass Hs. induction Hs as [|x l Hs IH Hall]; [reflexivity|].
  rewrite !filter_cons.
  destruct (decide (P x)) as [Hp|Hp].
  - destruct (decide (~ P x)) as [Hn|_]; [contradiction|].
    assert (Hl : Forall P l).
    { eapply Forall_impl; [exact Hall|]. intros b Hb. now apply (Hpass x). }
    replace (filter (fun a => ~ P a) l) with (@nil A).
    + simpl. f_equal. symmetry. clear -Hl.
      induction Hl as [|y l Hy Hl IH]; [reflexivity|].
      rewrite filter_cons_True by assumption. now f_equal.
    + symmetry. clear -Hl.
      induction Hl as [|y l Hy Hl IH]; [reflexivity|].
      rewrite filter_cons_False by tauto. assumption.
  - destruct (decide (~ P x)) as [_|Hn]; [|contradiction].
    simpl. now f_equal.
Qed.

Lemma index_run env st :
  has_permission env "webhook.view" = true ->
  index env st
  = mkOutcome [] (Ok (sort_by_key tuple_lt index_key (webhooks st))) st.
Proof.
  intros Hperm.
  unfold index, permission_required, get_all_webhooks, bind, ask, get_store,
    ret. simpl. now rewrite Hperm.
Qed.

(** X7.  For a user who may view webhooks, the index view never raises
    (its sort key can always be compared) and shows every stored webhook
    once: the webhooks with a description come first, ordered by
    description, then those without, in the order of the registry; webhooks
    of one description keep the order of the registry.  It logs nothing and
    changes nothing. *)
Theorem index_sorted_by_description env st :
  has_permission env "webhook.view" = true ->
  exists shown,
    index env st = mkOutcome [] (Ok shown) st
    /\ shown ≡ₚ webhooks st
    /\ shown = filter described shown
               ++ filter (fun w => description w = None) shown
    /\ filter (fun w => description w = None) shown
       = filter (fun w => description w = None) (webhooks st)
    /\ StronglySorted
         (fun a b => index_le (index_key a) (index_key b)) shown
    /\ forall d : string,
         filter (fun w => description w = Some d) shown
         = filter (fun w => description w = Some d) (webhooks st).
Proof.
  intros Hperm. rewrite (index_run _ _ Hperm).
  set (shown := sort_by_key tuple_lt index_key (webhooks st)).
  exists shown. split; [reflexivity|].
  assert (Hsorted :
    StronglySorted (fun a b => index_le (index_key a) (index_key b)) shown).
  { apply Sorted_StronglySorted.
    - intros a b c. apply index_le_trans.
    - pose proof (sort_by_key_sorted tuple_lt index_key tuple_lt_asym
                    (webhooks st)) as Hs.
      fold shown in Hs. induction Hs as [|a l Hs IH Hhd]; constructor;
        [assumption|].
      destruct Hhd; constructor. now apply tuple_lt_false_le. }
  assert (Hnone : forall w,
            description w = None <-> index_key w = (true, "")).
  { intros w. unfold index_key. destruct (description w); split;
      congruence. }
  assert (Hsome : forall (d : string) w,
            description w = Some d <-> index_key w = (false, d)).
  { intros d w. unfold index_key. destruct (description w) as [[|c r]|];
      simpl; split; congruence. }
  split; [apply sort_by_key_perm|]. split; [|split; [|split]].
  - rewrite (list_filter_iff described
               (fun w => ~ description w = None) shown) by reflexivity.
    apply (sorted_partition
             (fun a b => index_le (index_key a) (index_key b))
             (fun w => description w = None)); [|assumption].
    intros a b Hle Ha. apply Hnone in Ha.
    destruct Hle as [[Hf _]|[Hf _]]; rewrite Ha in Hf; simpl in Hf;
      [|discriminate Hf].
    unfold index_key in Hf.
    destruct (description b); [discriminate Hf|reflexivity].
  - rewrite (list_filter_iff _ (fun w => index_key w = (true, "")) shown)
      by apply Hnone.
    rewrite (list_filter_iff _ (fun w => index_key w = (true, ""))
               (webhooks st)) by apply Hnone.
    apply sort_by_key_stable, tuple_lt_irrefl.
  - assumption.
  - intros d.
    rewrite (list_filter_iff _ (fun w => index_key w = (false, d)) shown)
      by apply Hsome.
    rewrite (list_filter_iff _ (fun w => index_key w = (false, d))
               (webhooks st)) by apply Hsome.
    apply sort_by_key_stable, tuple_lt_irrefl.
Qed.

Lemma index_sorted_by_description_witness :
  let st :=
    Sample.store
      [MoreSample.described_as 1%N None;
       MoreSample.described_as 2%N (Some "relay");
       MoreSample.described_as 3%N (Some "chat")] in
  exists shown,
    index MoreSample.env_viewer st = mkOutcome [] (Ok shown) st
    /\ shown ≡ₚ webhooks st
    /\ shown = filter described shown
               ++ filter (fun w => description w = None) shown
    /\ filter (fun w => description w = None) shown
       = filter (fun w => description w = None) (webhooks st)
    /\ StronglySorted
         (fun a b => index_le (index_key a) (index_key b)) shown
    /\ forall d : string,
         filter (fun w => description w = Some d) shown
         = filter (fun w => description w = Some d) (webhooks st).
Proof.
  intros st.
  exact (index_sorted_by_description MoreSample.env_viewer st eq_refl).
Defined.

(** ** The admin views on their failing paths *)

Section WebhookAdminMoreFacts.

Variables strip lstrip : string -> string.
Variable WEBHOOK_EVENT_NAMES : gset string.
Variable validate_create : CreateForm -> bool.
Variable validate_update : UpdateForm -> bool.

Lemma store_eta (st : Store) :
  mkStore (webhooks st) (users st) (badges st) = st.
Proof. now destruct st. Qed.

(** X8.  The create view never alters or removes a stored webhook and
    touches neither users nor badges: the registry afterwards is the old
    one followed by at most one new record, and a record is added exactly
    when the user may administrate and the form is valid; when none is
    added nothing is flashed. *)
Theorem create_only_appends form env st :
  exists added,
    final (create strip WEBHOOK_EVENT_NAMES validate_create form env st)
    = mkStore (webhooks st ++ added) (users st) (badges st)
    /\ length added <= 1
    /\ (added <> []
        <-> has_permission env "webhook.administrate" = true
            /\ validate_create form = true)
    /\ (added = [] ->
        flashes (trace (create strip WEBHOOK_EVENT_NAMES validate_create
                          form env st)) = []).
Proof.
  destruct (has_permission env "webhook.administrate") eqn:Hperm.
  - destruct (validate_create form) eqn:Hvalid.
    + rewrite (create_run strip WEBHOOK_EVENT_NAMES validate_create
                 form env st Hperm Hvalid).
      eexists [_]. simpl. split; [reflexivity|]. split; [lia|].
      split; [|discriminate]. split; [now intros _|discriminate].
    + exists []. rewrite app_nil_r, store_eta.
      unfold create, create_form, permission_required, bind, ask, ret.
      simpl. rewrite Hperm. simpl. rewrite Hvalid. simpl. rewrite Hperm.
      simpl. split; [reflexivity|]. split; [lia|].
      split; [|reflexivity]. split; [congruence|]. now intros [_ H].
  - exists []. rewrite app_nil_r, store_eta.
    unfold create, permission_required, abort, raise, bind, ask, ret.
    simpl. rewrite Hperm. simpl. split; [reflexivity|]. split; [lia|].
    split; [|reflexivity]. split; [congruence|]. now intros [H _].
Qed.

(** X9.  An update that is refused changes nothing and flashes nothing:
    without the permission it ends with 403; for an id no webhook has it
    ends with 404, before the form is looked at; for an invalid form it
    shows the update form again, with the stored webhook and the submitted
    form. *)
Theorem update_refused_changes_nothing webhook_id form env st :
  (has_permission env "webhook.administrate" = false ->
   update strip lstrip WEBHOOK_EVENT_NAMES validate_update webhook_id form
     env st
   = mkOutcome [] (Raise (HTTPException 403)) st)
  /\ (has_permission env "webhook.administrate" = true ->
      List.find (fun w => N.eqb (id w) webhook_id) (webhooks st) = None ->
      update strip lstrip WEBHOOK_EVENT_NAMES validate_update webhook_id form
        env st
      = mkOutcome [] (Raise (HTTPException 404)) st)
  /\ (forall w,
        has_permission env "webhook.administrate" = true ->
        List.find (fun w => N.eqb (id w) webhook_id) (webhooks st) = Some w ->
        validate_update form = false ->
        update strip lstrip WEBHOOK_EVENT_NAMES validate_update webhook_id
          form env st
        = mkOutcome [] (Ok (UpdateFormPage w (Some form))) st).
Proof.
  split; [|split].
  - intros Hperm.
    unfold update, permission_required, abort, raise, bind, ask. simpl.
    now rewrite Hperm.
  - intros Hperm Hfind.
    unfold update, permission_required, _get_webhook_or_404, find_webhook,
      abort, raise, bind, ask, get_store, ret. simpl.
    rewrite Hperm. simpl. now rewrite Hfind.
  - intros w Hperm Hfind Hvalid.
    destruct (find_webhook_id _ _ _ Hfind) as [Hid _].
    unfold update, update_form, permission_required, _get_webhook_or_404,
      find_webhook, abort, raise, bind, ask, get_store, ret. simpl.
    rewrite Hperm. simpl. rewrite Hfind. simpl. rewrite Hvalid. simpl.
    rewrite Hperm. simpl. rewrite Hid, Hfind. reflexivity.
Qed.

Lemma assemble_no_flash webhook text env st :
  flashes (trace (_assemble_request_data webhook text env st)) = [].
Proof.
  unfold _assemble_request_data.
  destruct (String.eqb (format webhook) "discord"); [reflexivity|].
  destruct (String.eqb (format webhook) "weitersager"); [|reflexivity].
  simpl. now destruct (truthy (dict_get (extra_fields webhook) "channel")).
Qed.

(** X10.  For a webhook it finds, the test view calls the dispatcher once,
    for that webhook and with the test text, whether or not the webhook is
    enabled; exactly one request goes out and exactly one message is
    flashed.  For an id no webhook has it ends with 404 and no request is
    made. *)
Theorem test_calls_stored_webhook_once webhook_id env st :
  has_permission env "webhook.administrate" = true ->
  match List.find (fun w => N.eqb (id w) webhook_id) (webhooks st) with
  | Some webhook =>
      result (test webhook_id env st) = Ok NoContent
      /\ deliveries (trace (test webhook_id env st))
         = [Invoke webhook test_text]
      /\ (exists data,
            posts (trace (test webhook_id env st)) = [(url webhook, data)])
      /\ length (flashes (trace (test webhook_id env st))) = 1
  | None =>
      test webhook_id env st = mkOutcome [] (Raise (HTTPException 404)) st
  end.
Proof.
  intros Hperm.
  destruct (List.find _ (webhooks st)) as [webhook|] eqn:Hfind.
  - rewrite (test_run _ _ _ _ Hperm Hfind).
    destruct (call_webhook_run webhook test_text env st)
      as (logs & data & Ha & Hp & _ & Hd & Hc).
    assert (Hflash : flashes logs = []).
    { change logs with (trace (mkOutcome logs (Ok data) st)).
      rewrite <- Ha. apply assemble_no_flash. }
    rewrite Hc. cbn [trace result].
    rewrite !deliveries_app, !posts_app, !flashes_app.
    cbn [deliveries posts flashes app].
    rewrite !deliveries_app, !posts_app, !flashes_app, Hd, Hp, Hflash.
    destruct (http env (url webhook) data); simpl;
      (split; [reflexivity|]); (split; [reflexivity|]);
      (split; [now exists data|reflexivity]).
  - cbv beta iota zeta delta
      [test permission_required _get_webhook_or_404 find_webhook
       bind ask get_store ret abort raise trace result final].
    rewrite Hperm. cbv beta iota. now rewrite Hfind.
Qed.

End WebhookAdminMoreFacts.

Lemma test_calls_stored_webhook_once_witness :
  let st := Sample.store [Sample.discord; Sample.discord_disabled] in
  let env := Sample.env_answering 500 in
  enabled Sample.discord_disabled = false
  /\ result (test 2%N env st) = Ok NoContent
  /\ deliveries (trace (test 2%N env st))
     = [Invoke Sample.discord_disabled test_text]
  /\ (exists data,
        posts (trace (test 2%N env st))
        = [(url Sample.discord_disabled, data)])
  /\ length (flashes (trace (test 2%N env st))) = 1.
Proof.
  intros st env. split; [reflexivity|].
  exact (test_calls_stored_webhook_once 2%N env st eq_refl).
Defined.

(** ** The announcers of [irc/user.py] and [irc/user_badge.py] on missing
    records *)

Ltac run_announcer :=
  cbv beta iota zeta delta
    [announce_user_account_created announce_user_badge_awarded
     announce_user_screen_name_changed
     announce_user_email_address_invalidated
     announce_user_details_updated_changed announce_user_account_suspended
     announce_user_account_unsuspended announce_user_account_deleted
     find_user find_badge getattr send_message emit bind get_store ret raise
     trace result final].

Section IrcUserAnnouncersFacts.

Variable CHANNEL_ORGA_LOG : string.
Variable uuid_str : UserID -> string.

Lemma contains_quoted1 (a x b : string) :
  contains (dq +:+ x +:+ dq) (a +:+ dq +:+ x +:+ dq +:+ b).
Proof. exists a, b. now rewrite !append_assoc. Qed.

Lemma contains_quoted2 (a1 a2 x b : string) :
  contains (dq +:+ x +:+ dq) (a1 +:+ a2 +:+ dq +:+ x +:+ dq +:+ b).
Proof. exists (a1 +:+ a2), b. now rewrite !append_assoc. Qed.

Ltac all_or_nothing_cases st user_id initiator_id :=
  unfold all_or_nothing; run_announcer;
  destruct (users st !! user_id) as [u|];
    destruct (users st !! initiator_id) as [i|]; cbv beta iota;
  (split; [reflexivity|]);
  [ split; [reflexivity|]; eexists; split; [reflexivity|];
    first [apply contains_quoted1 | apply contains_quoted2]
  | split; [reflexivity|eexists; reflexivity] .. ].

Lemma email_address_invalidated_all_or_nothing
    (event : UserEmailAddressInvalidated) env st :
  all_or_nothing CHANNEL_ORGA_LOG (fun u => format_opt (screen_name u))
    (users st !! ueai_initiator_id event) (users st !! ueai_user_id event)
    st (announce_user_email_address_invalidated CHANNEL_ORGA_LOG event env st).
Proof.
  all_or_nothing_cases st (ueai_user_id event) (ueai_initiator_id event).
Qed.

Lemma details_updated_all_or_nothing (event : UserDetailsUpdated) env st :
  all_or_nothing CHANNEL_ORGA_LOG (fun u => format_opt (screen_name u))
    (users st !! udu_initiator_id event) (users st !! udu_user_id event)
    st (announce_user_details_updated_changed CHANNEL_ORGA_LOG event env st).
Proof.
  all_or_nothing_cases st (udu_user_id event) (udu_initiator_id event).
Qed.

Lemma account_suspended_all_or_nothing (event : UserAccountSuspended) env st :
  all_or_nothing CHANNEL_ORGA_LOG (fun u => format_opt (screen_name u))
    (users st !! uas_initiator_id event) (users st !! uas_user_id event)
    st (announce_user_account_suspended CHANNEL_ORGA_LOG event env st).
Proof.
  all_or_nothing_cases st (uas_user_id event) (uas_initiator_id event).
Qed.

Lemma account_unsuspended_all_or_nothing
    (event : UserAccountUnsuspended) env st :
  all_or_nothing CHANNEL_ORGA_LOG (fun u => format_opt (screen_name u))
    (users st !! uau_initiator_id event) (users st !! uau_user_id event)
    st (announce_user_account_unsuspended CHANNEL_ORGA_LOG event env st).
Proof.
  all_or_nothing_cases st (uau_user_id event) (uau_initiator_id event).
Qed.

Lemma account_deleted_all_or_nothing (event : UserAccountDeleted) env st :
  all_or_nothing CHANNEL_ORGA_LOG (fun u => uuid_str (user_id_of u))
    (users st !! uad_initiator_id event) (users st !! uad_user_id event)
    st (announce_user_account_deleted CHANNEL_ORGA_LOG uuid_str event env st).
Proof.
  all_or_nothing_cases st (uad_user_id event) (uad_initiator_id event).
Qed.

(** X11.  The announcers for an invalidated email address, updated
    details, a suspended, an unsuspended and a deleted account have no
    fallback name: each needs both the initiator and the account of its
    event.  With both it hands over one message for the organizer log
    channel, which starts with the initiator's screen name and shows the
    account in quotes (by screen name; by id for a deleted account);
    with either missing it raises [AttributeError] and sends nothing.  The
    database is left as it is. *)
Theorem user_announcers_all_or_nothing env st :
  (forall event : UserEmailAddressInvalidated,
     all_or_nothing CHANNEL_ORGA_LOG (fun u => format_opt (screen_name u))
       (users st !! ueai_initiator_id event) (users st !! ueai_user_id event)
       st (announce_user_email_address_invalidated CHANNEL_ORGA_LOG event
             env st))
  /\ (forall event : UserDetailsUpdated,
        all_or_nothing CHANNEL_ORGA_LOG (fun u => format_opt (screen_name u))
          (users st !! udu_initiator_id event) (users st !! udu_user_id event)
          st (announce_user_details_updated_changed CHANNEL_ORGA_LOG event
                env st))
  /\ (forall event : UserAccountSuspended,
        all_or_nothing CHANNEL_ORGA_LOG (fun u => format_opt (screen_name u))
          (users st !! uas_initiator_id event) (users st !! uas_user_id event)
          st (announce_user_account_suspended CHANNEL_ORGA_LOG event env st))
  /\ (forall event : UserAccountUnsuspended,
        all_or_nothing CHANNEL_ORGA_LOG (fun u => format_opt (screen_name u))
          (users st !! uau_initiator_id event) (users st !! uau_user_id event)
          st (announce_user_account_unsuspended CHANNEL_ORGA_LOG event env
                st))
  /\ (forall event : UserAccountDeleted,
        all_or_nothing CHANNEL_ORGA_LOG (fun u => uuid_str (user_id_of u))
          (users st !! uad_initiator_id event) (users st !! uad_user_id event)
          st (announce_user_account_deleted CHANNEL_ORGA_LOG uuid_str event
                env st)).
Proof.
  split; [|split; [|split; [|split]]]; intros event.
  - apply email_address_invalidated_all_or_nothing.
  - apply details_updated_all_or_nothing.
  - apply account_suspended_all_or_nothing.
  - apply account_unsuspended_all_or_nothing.
  - apply account_deleted_all_or_nothing.
Qed.

(** X12.  The announcer for a changed screen name looks up the initiator
    only, not the renamed account: whenever the initiator exists it hands
    over one message for the organizer log channel that starts with the
    initiator's screen name and shows the old and the new name of the event
    in quotes; without the initiator it raises [AttributeError] and sends
    nothing. *)
Theorem screen_name_changed_needs_only_initiator
    (event : UserScreenNameChanged) env st :
  (forall initiator,
     users st !! usnc_initiator_id event = Some initiator ->
     exists rest,
       announce_user_screen_name_changed CHANNEL_ORGA_LOG event env st
       = mkOutcome
           [SendMessage [CHANNEL_ORGA_LOG]
              (format_opt (screen_name initiator) +:+ rest)]
           (Ok tt) st
       /\ contains (dq +:+ format_opt (usnc_old_screen_name event) +:+ dq) rest
       /\ contains (dq +:+ format_opt (usnc_new_screen_name event) +:+ dq)
            rest)
  /\ (users st !! usnc_initiator_id event = None ->
      announce_user_screen_name_changed CHANNEL_ORGA_LOG event env st
      = mkOutcome [] (Raise (AttributeError "screen_name")) st).
Proof.
  split.
  - intros initiator Hi. run_announcer. rewrite Hi. cbv beta iota.
    eexists. split; [reflexivity|]. split.
    + apply contains_quoted1.
    + exists (" hat das Benutzerkonto " +:+ dq
              +:+ format_opt (usnc_old_screen_name event) +:+ dq +:+ " in "),
        " umbenannt.".
      now rewrite !append_assoc.
  - intros Hi. run_announcer. now rewrite Hi.
Qed.

(** X13.  The account-created announcer returns normally exactly when the
    created account exists and the initiator, if the event names one,
    exists too.  The fallback "Jemand" stands in for no initiator only: an
    initiator id that no user has makes the announcer raise
    [AttributeError].  Whenever it raises, nothing has been sent. *)
Theorem announce_user_account_created_needs_records
    (event : UserAccountCreated) env st :
  let o := announce_user_account_created CHANNEL_ORGA_LOG event env st in
  (result o = Ok tt
   <-> is_Some (users st !! uac_user_id event)
       /\ forall initiator_id,
            uac_initiator_id event = Some initiator_id ->
            is_Some (users st !! initiator_id))
  /\ (result o <> Ok tt ->
      trace o = [] /\ exists attr, result o = Raise (AttributeError attr))
  /\ final o = st.
Proof.
  cbv zeta. run_announcer.
  destruct (users st !! uac_user_id event) as [u|] eqn:Hu;
    destruct (uac_initiator_id event) as [i|] eqn:Hinit; cbv beta iota;
    try (destruct (users st !! i) as [iu|] eqn:Hi; cbv beta iota).
  all: split; [|split; [|reflexivity]].
  all: try (intros _; split; [reflexivity|eexists; reflexivity]).
  all: try (intros H; exfalso; apply H; reflexivity).
  - split; [|reflexivity]. intros _. split; [eauto|].
    intros j [= <-]. rewrite Hi. eauto.
  - split; [discriminate|]. intros [_ H].
    destruct (H i eq_refl) as [x Hx]. congruence.
  - split; [|reflexivity]. intros _. split; [eauto|]. discriminate.
  - split; [discriminate|]. intros [[x Hx] _]. discriminate.
  - split; [discriminate|]. intros [[x Hx] _]. discriminate.
  - split; [discriminate|]. intros [[x Hx] _]. discriminate.
Qed.

(** X14.  The badge announcer returns normally exactly when the recipient
    and the badge exist and the initiator, if the event names one, exists
    too; otherwise it raises [AttributeError], and then nothing has been
    sent. *)
Theorem announce_user_badge_awarded_needs_records
    (event : UserBadgeAwarded) env st :
  let o := announce_user_badge_awarded CHANNEL_ORGA_LOG event env st in
  (result o = Ok tt
   <-> is_Some (users st !! uba_user_id event)
       /\ is_Some (badges st !! uba_badge_id event)
       /\ forall initiator_id,
            uba_initiator_id event = Some initiator_id ->
            is_Some (users st !! initiator_id))
  /\ (result o <> Ok tt ->
      trace o = [] /\ exists attr, result o = Raise (AttributeError attr))
  /\ final o = st.
Proof.
  cbv zeta. run_announcer.
  destruct (users st !! uba_user_id event) as [u|] eqn:Hu;
    destruct (badges st !! uba_badge_id event) as [b|] eqn:Hb;
    destruct (uba_initiator_id event) as [i|] eqn:Hinit; cbv beta iota;
    try (destruct (users st !! i) as [iu|] eqn:Hi; cbv beta iota).
  all: split; [|split; [|reflexivity]].
  all: try (intros _; split; [reflexivity|eexists; reflexivity]).
  all: try (intros H; exfalso; apply H; reflexivity).
  all: try (split; [discriminate|]; intros ([x Hx] & [y Hy] & H);
            first [discriminate Hx | discriminate Hy
                  | destruct (H i eq_refl) as [z Hz]; congruence]).
  - split; [|reflexivity]. intros _. split; [eauto|]. split; [eauto|].
    intros j [= <-]. rewrite Hi. eauto.
  - split; [|reflexivity]. intros _. split; [eauto|]. split; [eauto|].
    discriminate.
Qed.

End IrcUserAnnouncersFacts.
